(** * Stock-Analysis-CLI-in-Go: the opening-gap pipeline of [main.go]

    A shallow embedding of [main.go]: the CSV loader [Load], the position
    sizer [Calculate], the news adapter [FetchNews], the sink [Deliver] and
    the fan-out / collection loop of [main], followed by the properties of
    the specification that are checked against them.

    Go's [float64] is IEEE 754 binary64.  It is modelled by the Standard
    Library's [spec_float] with precision 53 and maximal exponent 1024, whose
    operations round to nearest, ties to even, as the Go operators do; every
    operation is rounded on its own (no fused multiply-add), as on amd64.
    What the program gets from outside (the CSV file, the answers of the news
    service, the file system under the sink) is an explicit argument. *)

From Stdlib Require Import ZArith List String Bool Lia Permutation.
From Stdlib Require Import Floats.SpecFloat.
Import ListNotations.
Open Scope Z_scope.

(** ** binary64 arithmetic *)

Module F64.

Definition float64 := spec_float.

Definition prec : Z := 53.
Definition emax : Z := 1024.

Definition add : float64 -> float64 -> float64 := SFadd prec emax.
Definition sub : float64 -> float64 -> float64 := SFsub prec emax.
Definition mul : float64 -> float64 -> float64 := SFmul prec emax.
Definition div : float64 -> float64 -> float64 := SFdiv prec emax.
Definition ltb : float64 -> float64 -> bool := SFltb.
Definition leb : float64 -> float64 -> bool := SFleb.

(** A value of the format proper: canonical mantissa, exponent in range. *)
Definition valid (x : float64) : bool := valid_binary prec emax x.

Definition is_finite (x : float64) : bool :=
  match x with
  | S754_zero _ | S754_finite _ _ _ => true
  | _ => false
  end.

Definition is_nan (x : float64) : bool :=
  match x with
  | S754_nan => true
  | _ => false
  end.

(** [math.Signbit]. *)
Definition signbit (x : float64) : bool :=
  match x with
  | S754_zero s | S754_infinity s | S754_finite s _ _ => s
  | S754_nan => false
  end.

(** [float64(n)] for an integer [n]: the nearest binary64. *)
Definition of_int (n : Z) : float64 := binary_normalize prec emax n 0 false.

(** The decimal constant [n/d] as the compiler converts it: the binary64
    nearest to the exact quotient.  Division of two exactly represented
    integers is correctly rounded, so this is that value whenever [n] and
    [d] are below [2^53] in magnitude (or are such a number times a power of
    two). *)
Definition lit (n d : Z) : float64 := div (of_int n) (of_int d).

(** [math.Abs]. *)
Definition Abs : float64 -> float64 := SFabs.

(** [math.Round]: the nearest integer, halves away from zero;
    [Round(±0) = ±0], [Round(±Inf) = ±Inf], [Round(NaN) = NaN].  A finite
    value is [±m·2^e]; with [e >= 0] it is an integer already. *)
Definition Round (x : float64) : float64 :=
  match x with
  | S754_finite s m (Zneg k) =>
      let d := 2 ^ Zpos k in
      let q := Zpos m / d in
      let r := Zpos m mod d in
      let n := if d <=? 2 * r then q + 1 else q in
      binary_normalize prec emax (cond_Zopp s n) 0 s
  | _ => x
  end.

(** The integer part of a finite value (rounding toward zero); infinities
    and NaN have none. *)
Definition trunc (x : float64) : option Z :=
  match x with
  | S754_zero _ => Some 0
  | S754_finite s m (Zneg k) => Some (cond_Zopp s (Zpos m / 2 ^ Zpos k))
  | S754_finite s m e => Some (cond_Zopp s (Zpos m * 2 ^ e))
  | _ => None
  end.

(** The mathematical floor of a finite value. *)
Definition floor (x : float64) : option Z :=
  match x with
  | S754_zero _ => Some 0
  | S754_finite s m (Zneg k) => Some (cond_Zopp s (Zpos m) / 2 ^ Zpos k)
  | S754_finite s m e => Some (cond_Zopp s (Zpos m) * 2 ^ e)
  | _ => None
  end.

(** Go's [int] on the 64-bit targets. *)
Definition min_int : Z := - 2 ^ 63.
Definition max_int : Z := 2 ^ 63 - 1.

Definition fits_int (z : Z) : bool := (min_int <=? z) && (z <=? max_int).

(** The conversion [int(x)]: the fraction is discarded.  When the value
    cannot be held by an [int] (too large, infinite, NaN) the language leaves
    the result to the implementation; the model takes the amd64 one, where
    the conversion instruction yields the "integer indefinite" [-2^63]. *)
Definition int_indefinite : Z := min_int.

Definition to_int (x : float64) : Z :=
  match trunc x with
  | Some z => if fits_int z then z else int_indefinite
  | None => int_indefinite
  end.

End F64.

Import F64.

(** ** Data model *)

Record Stock := {
  Ticker : string;
  Gap : float64;
  OpeningPrice : float64
}.

Record Position := {
  EntryPrice : float64;
  Shares : Z;
  TakeProfitPrice : float64;
  StopLossPrice : float64;
  Profit : float64
}.

(** ** Risk policy *)

Definition accountBalance : float64 := of_int 10000.
Definition lossTolerance : float64 := lit 2 10.
Definition maxLossPerTrade : float64 := mul accountBalance lossTolerance.
Definition profitPercent : float64 := lit 8 10.

(** ** Position sizer *)

Definition Calculate (gapPercent openingPrice : float64) : Position :=
  let closingPrice := div openingPrice (add (of_int 1) gapPercent) in
  let gapValue := sub closingPrice openingPrice in
  let profitFromGap := mul profitPercent gapValue in
  let stopLoss := sub openingPrice profitFromGap in
  let takeProfit := add openingPrice profitFromGap in
  let shares := to_int (div maxLossPerTrade (Abs (sub stopLoss openingPrice))) in
  let profit := mul (Abs (sub openingPrice takeProfit)) (of_int shares) in
  let profit := div (Round (mul profit (of_int 100))) (of_int 100) in
  {| EntryPrice := div (Round (mul openingPrice (of_int 100))) (of_int 100);
     Shares := shares;
     TakeProfitPrice := div (Round (mul takeProfit (of_int 100))) (of_int 100);
     StopLossPrice := div (Round (mul stopLoss (of_int 100))) (of_int 100);
     Profit := div (Round (mul profit (of_int 100))) (of_int 100) |}.

(** ** The sizing algorithm as the specification words it

    The steps of the specification's position sizer, one definition per
    step, over an explicit risk policy.  The share count is the mathematical
    floor of the quotient, which an infinite or undefined quotient does not
    have. *)

Module Spec.

Record RiskPolicy := {
  balance : float64;
  lossToleranceFraction : float64;
  profitCaptureFraction : float64
}.

Definition maxRiskBudget (p : RiskPolicy) : float64 :=
  mul (balance p) (lossToleranceFraction p).

Section Sizing.
Variable policy : RiskPolicy.
Variables gapPercent openingPrice : float64.

Definition impliedPriorClose : float64 :=
  div openingPrice (add (of_int 1) gapPercent).
Definition gapValue : float64 := sub impliedPriorClose openingPrice.
Definition profitFromGap : float64 :=
  mul (profitCaptureFraction policy) gapValue.
Definition stopLossPrice : float64 := sub openingPrice profitFromGap.
Definition takeProfitPrice : float64 := add openingPrice profitFromGap.
Definition shareCount : option Z :=
  floor (div (maxRiskBudget policy) (Abs (sub stopLossPrice openingPrice))).
End Sizing.

(** Rounding to two decimals: scale by 100, round to the nearest integer,
    scale back. *)
Definition round2 (x : float64) : float64 :=
  div (Round (mul x (of_int 100))) (of_int 100).

(** The invariant the data model attaches to a trade plan, read over the
    plan's own fields. *)
Definition plan_invariant (policy : RiskPolicy) (p : Position) : Prop :=
  floor (div (maxRiskBudget policy)
             (Abs (sub (StopLossPrice p) (EntryPrice p)))) = Some (Shares p)
  /\ Profit p =
     round2 (mul (Abs (sub (EntryPrice p) (TakeProfitPrice p)))
                 (of_int (Shares p))).

End Spec.

(** The policy the program is compiled with. *)
Definition policy : Spec.RiskPolicy :=
  {| Spec.balance := accountBalance;
     Spec.lossToleranceFraction := lossTolerance;
     Spec.profitCaptureFraction := profitPercent |}.

(** [Calculate] follows the specification's steps at one input: the share
    count is the floor of step 5 over the unrounded prices, and the three
    prices returned are those of steps 1 to 4 rounded to two decimals. *)
Definition follows_sizing (gapPercent openingPrice : float64) : Prop :=
  let p := Calculate gapPercent openingPrice in
  Spec.shareCount policy gapPercent openingPrice = Some (Shares p)
  /\ EntryPrice p = Spec.round2 openingPrice
  /\ StopLossPrice p =
     Spec.round2 (Spec.stopLossPrice policy gapPercent openingPrice)
  /\ TakeProfitPrice p =
     Spec.round2 (Spec.takeProfitPrice policy gapPercent openingPrice).

(** ** Candidate filter *)

(** [slices.DeleteFunc]: the elements for which [del] answers true are
    removed, the others keep their order. *)
Fixpoint DeleteFunc {A : Type} (s : list A) (del : A -> bool) : list A :=
  match s with
  | [] => []
  | x :: rest => if del x then DeleteFunc rest del else x :: DeleteFunc rest del
  end.

Definition threshold : float64 := lit 1 10.

Definition unworthy (s : Stock) : bool := ltb (Abs (Gap s)) threshold.

Definition filter_stocks (stocks : list Stock) : list Stock :=
  DeleteFunc stocks unworthy.

(** The rows the specification keeps: [|gapPercent| >= 0.10]. *)
Definition material (s : Stock) : bool := leb threshold (Abs (Gap s)).

(** ** Errors, panics and printed lines *)

Inductive error :=
| External (msg : string)
| UnsuccessfulResponse (code : Z)
| ErrorCreatingFile (cause : error)
| ErrorEncodingSelections (cause : error).

Inductive exec (A : Type) :=
| Returns (a : A)
| Panics.
Arguments Returns {A} a.
Arguments Panics {A}.

Definition bind {A B : Type} (c : exec A) (k : A -> exec B) : exec B :=
  match c with
  | Returns a => k a
  | Panics => Panics
  end.

Notation "x <- c ;; k" := (bind c (fun x => k))
  (at level 61, c at next level, right associativity).

Inductive Output :=
| Println (e : error)
| ErrorLoadingNews (ticker : string) (e : error)
| FoundArticles (n : nat) (ticker : string)
| ErrorWritingOutput (e : error)
| FinishedWriting (path : string).

(** ** Loader *)

(** What the file system and [csv.Reader.ReadAll] hand to [Load]. *)
Inductive CsvFile :=
| OpenFails (e : error)
| ReadAllFails (e : error)
| Records (rows : list (list string)).

(** An index expression [s[i]] panics out of range. *)
Definition index_at {A : Type} (s : list A) (i : nat) : exec A :=
  match nth_error s i with
  | Some x => Returns x
  | None => Panics
  end.

(** [slices.Delete(s, i, j)] panics unless [i <= j <= len(s)]. *)
Definition Delete {A : Type} (s : list A) (i j : nat) : exec (list A) :=
  if (Nat.leb i j && Nat.leb j (List.length s))%bool
  then Returns (firstn i s ++ skipn j s)
  else Panics.

Section Loader.
(** [strconv.ParseFloat(s, 64)], with [None] for a parse error. *)
Variable ParseFloat : string -> option float64.

Fixpoint load_rows (rows : list (list string)) (stocks : list Stock)
  : exec (list Stock) :=
  match rows with
  | [] => Returns stocks
  | row :: rest =>
      ticker <- index_at row 0 ;;
      field1 <- index_at row 1 ;;
      match ParseFloat field1 with
      | None => load_rows rest stocks
      | Some gap =>
          field2 <- index_at row 2 ;;
          match ParseFloat field2 with
          | None => load_rows rest stocks
          | Some openingPrice =>
              load_rows rest
                (stocks ++ [{| Ticker := ticker; Gap := gap;
                               OpeningPrice := openingPrice |}])
          end
      end
  end.

(** The printed lines, the stock list and the error. *)
Definition Load (f : CsvFile)
  : exec (list Output * (list Stock * option error)) :=
  match f with
  | OpenFails e => Returns ([Println e], ([], Some e))
  | ReadAllFails e => Returns ([Println e], ([], Some e))
  | Records rows =>
      rows <- Delete rows 0 1 ;;
      stocks <- load_rows rows [] ;;
      Returns ([], (stocks, None))
  end.
End Loader.

(** The shape under which [Load] is said not to panic: a header row is
    there and every row has three fields or more. *)
Definition well_shaped (rows : list (list string)) : Prop :=
  rows <> [] /\ Forall (fun row => (3 <= List.length row)%nat) rows.

Section Rows.
Variable ParseFloat : string -> option float64.

(** A data row at which the loop indexes out of range: it has no second
    field, or its second field parses and it has no third. *)
Definition panicking_row (row : list string) : bool :=
  match row with
  | [] | [_] => true
  | [_; field1] =>
      match ParseFloat field1 with
      | Some _ => true
      | None => false
      end
  | _ => false
  end.

(** The stock of a data row whose two numeric fields parse. *)
Definition parse_row (row : list string) : option Stock :=
  match row with
  | ticker :: field1 :: field2 :: _ =>
      match ParseFloat field1, ParseFloat field2 with
      | Some gap, Some openingPrice =>
          Some {| Ticker := ticker; Gap := gap;
                  OpeningPrice := openingPrice |}
      | _, _ => None
      end
  | _ => None
  end.

Fixpoint parsed (rows : list (list string)) : list Stock :=
  match rows with
  | [] => []
  | row :: rest =>
      match parse_row row with
      | Some s => s :: parsed rest
      | None => parsed rest
      end
  end.

(** The reading of "panic-free only under the precondition". *)
Definition panic_free_only_if_shaped (rows : list (list string)) : Prop :=
  Load ParseFloat (Records rows) <> Panics -> well_shaped rows.
End Rows.

(** ** News adapter *)

Definition Time := Z.

Record Attributes := {
  Attributes_PublishOn : Time;
  Title : string
}.

Record SeekingAlphaNews := { attributes : Attributes }.

Record SeekingAlphaResponse := { Data : list SeekingAlphaNews }.

Record Article := {
  PublishOn : Time;
  Headline : string
}.

(** What the network hands to [FetchNews]: [http.NewRequest] fails,
    [client.Do] fails, or a response arrives.  The response body is given by
    what [Decode] leaves in [res] and the error [Decode] returns. *)
Inductive HttpOutcome :=
| NewRequestFails (e : error)
| DoFails (e : error)
| Response (StatusCode : Z) (res : SeekingAlphaResponse)
           (decodeErr : option error).

Definition article_of (item : SeekingAlphaNews) : Article :=
  {| PublishOn := Attributes_PublishOn (attributes item);
     Headline := Title (attributes item) |}.

Definition FetchNews (h : HttpOutcome) : list Article * option error :=
  match h with
  | NewRequestFails e => ([], Some e)
  | DoFails e => ([], Some e)
  | Response StatusCode res _ =>
      if ((StatusCode <? 200) || (StatusCode >? 299))%bool
      then ([], Some (UnsuccessfulResponse StatusCode))
      else (map article_of (Data res), None)
  end.

(** ** Result sink *)

Record Selection := {
  Selection_Ticker : string;
  Selection_Position : Position;
  Articles : list Article
}.

(** What the file system does to [Deliver]: [os.Create] fails, encoding
    fails after the file was created, or the batch is written. *)
Inductive SinkOutcome :=
| CreateFails (e : error)
| EncodeFails (e : error)
| Encoded.

Inductive FileState :=
| Untouched
| Truncated
| Holds (selections : list Selection).

Definition Deliver (k : SinkOutcome) (selections : list Selection)
  : FileState * option error :=
  match k with
  | CreateFails e => (Untouched, Some (ErrorCreatingFile e))
  | EncodeFails e => (Truncated, Some (ErrorEncodingSelections e))
  | Encoded => (Holds selections, None)
  end.

(** ** Fan-out and collection in [main]

    One goroutine per filtered stock computes the position, asks for the
    news, prints and sends its [Selection] on a channel of capacity
    [len(stocks)]; [main] ranges over the channel, appends what it receives
    and closes the channel when it holds [len(stocks)] selections.  The
    interleavings are the runs of a step relation over the state of the
    goroutines, the channel and [main]; what a goroutine does up to and
    including its send is one step, taken in any order among the goroutines
    still running.  A send on a closed channel and a second [close] panic. *)

Definition Task : Type := Stock * HttpOutcome.

(** The body of the goroutine up to its send: the lines it prints and the
    selection it sends. *)
Definition worker (t : Task) : list Output * Selection :=
  let s := fst t in
  let position := Calculate (Gap s) (OpeningPrice s) in
  let (articles, err) := FetchNews (snd t) in
  let report :=
    match err with
    | Some e => [ErrorLoadingNews (Ticker s) e]
    | None => []
    end in
  (report ++ [FoundArticles (List.length articles) (Ticker s)],
   {| Selection_Ticker := Ticker s;
      Selection_Position := position;
      Articles := articles |}).

Definition printed (t : Task) : list Output := fst (worker t).
Definition sent (t : Task) : Selection := snd (worker t).

(** Where [main] stands: in the range loop, past it, or gone with an exit
    status (0 when [main] returns, 2 when the runtime aborts on a panic). *)
Inductive Pc :=
| Collecting
| Delivering
| Exited (status : Z).

Record State := {
  pc : Pc;
  running : list Task;
  buffer : list Selection;
  closed : bool;
  selections : list Selection;
  output : list Output;
  file : FileState
}.

Definition alive (st : State) : Prop :=
  match pc st with
  | Exited _ => False
  | _ => True
  end.

Definition outputPath : string := "./opg.json".

Section Coordinator.
(** [len(stocks)] and what the file system does to the sink. *)
Variable n : nat.
Variable k : SinkOutcome.

Inductive step : State -> State -> Prop :=
| step_send : forall st before t after,
    alive st ->
    running st = before ++ t :: after ->
    closed st = false ->
    (List.length (buffer st) < n)%nat ->
    step st
      {| pc := pc st;
         running := before ++ after;
         buffer := buffer st ++ [sent t];
         closed := closed st;
         selections := selections st;
         output := output st ++ printed t;
         file := file st |}
| step_send_on_closed : forall st before t after,
    alive st ->
    running st = before ++ t :: after ->
    closed st = true ->
    step st
      {| pc := Exited 2;
         running := before ++ after;
         buffer := buffer st;
         closed := closed st;
         selections := selections st;
         output := output st ++ printed t;
         file := file st |}
| step_receive : forall st sel rest,
    pc st = Collecting ->
    buffer st = sel :: rest ->
    List.length (selections st ++ [sel]) <> n ->
    step st
      {| pc := Collecting;
         running := running st;
         buffer := rest;
         closed := closed st;
         selections := selections st ++ [sel];
         output := output st;
         file := file st |}
| step_receive_close : forall st sel rest,
    pc st = Collecting ->
    buffer st = sel :: rest ->
    List.length (selections st ++ [sel]) = n ->
    closed st = false ->
    step st
      {| pc := Collecting;
         running := running st;
         buffer := rest;
         closed := true;
         selections := selections st ++ [sel];
         output := output st;
         file := file st |}
| step_close_closed : forall st sel rest,
    pc st = Collecting ->
    buffer st = sel :: rest ->
    List.length (selections st ++ [sel]) = n ->
    closed st = true ->
    step st
      {| pc := Exited 2;
         running := running st;
         buffer := rest;
         closed := true;
         selections := selections st ++ [sel];
         output := output st;
         file := file st |}
| step_range_end : forall st,
    pc st = Collecting ->
    buffer st = [] ->
    closed st = true ->
    step st
      {| pc := Delivering;
         running := running st;
         buffer := [];
         closed := true;
         selections := selections st;
         output := output st;
         file := file st |}
| step_deliver : forall st,
    pc st = Delivering ->
    step st
      {| pc := Exited 0;
         running := running st;
         buffer := buffer st;
         closed := closed st;
         selections := selections st;
         output :=
           output st ++
           match snd (Deliver k (selections st)) with
           | Some e => [ErrorWritingOutput e]
           | None => [FinishedWriting outputPath]
           end;
         file := fst (Deliver k (selections st)) |}.

(** Runs, with their number of steps. *)
Inductive run : nat -> State -> State -> Prop :=
| run_done : forall st, run 0 st st
| run_step : forall m st st' st'',
    step st st' -> run m st' st'' -> run (S m) st st''.
End Coordinator.

(** The state once every goroutine has been started. *)
Definition init (out : list Output) (tasks : list Task) : State :=
  {| pc := Collecting;
     running := tasks;
     buffer := [];
     closed := false;
     selections := [];
     output := out;
     file := Untouched |}.

Definition halted (status : Z) (out : list Output) : State :=
  {| pc := Exited status;
     running := [];
     buffer := [];
     closed := false;
     selections := [];
     output := out;
     file := Untouched |}.

(** The outside of one execution: the input file, the answer to the request
    of the [i]-th goroutine, the sink. *)
Record World := {
  csv : CsvFile;
  news : nat -> HttpOutcome;
  sink : SinkOutcome
}.

Definition dispatch (news : nat -> HttpOutcome) (stocks : list Stock)
  : list Task :=
  combine stocks (map news (seq 0 (List.length stocks))).

Section Main.
Variable ParseFloat : string -> option float64.

(** [main] up to the range loop: the number of stocks dispatched and the
    state reached. *)
Definition main_start (w : World) : nat * State :=
  match Load ParseFloat (csv w) with
  | Panics => (O, halted 2 [])
  | Returns (out, (_, Some err)) => (O, halted 0 (out ++ [Println err]))
  | Returns (out, (stocks, None)) =>
      let stocks := filter_stocks stocks in
      (List.length stocks, init out (dispatch (news w) stocks))
  end.

(** The states an execution of [main] goes through. *)
Definition main_reaches (w : World) (st : State) : Prop :=
  exists m, run (fst (main_start w)) (sink w) m (snd (main_start w)) st.
End Main.

(** The reading of "a failing sink ends the run with a non-zero status", over
    the runs from a state [st0]. *)
Definition exits_nonzero_on_sink_failure
    (n : nat) (k : SinkOutcome) (st0 : State) : Prop :=
  forall m st status,
    run n k m st0 st ->
    pc st = Exited status ->
    snd (Deliver k (selections st)) <> None ->
    status <> 0.

(** The steps [main] and the goroutines still owe. *)
Definition weight (st : State) : nat :=
  2 * List.length (running st) + List.length (buffer st) +
  match pc st with
  | Collecting => 2
  | Delivering => 1
  | Exited _ => 0
  end.

(** What holds of every state of the collection over a non-empty batch:
    the goroutines that have sent are accounted for in the channel and in
    [selections], the channel is closed exactly when [selections] is
    complete, [main] leaves the loop with nothing pending, and the file is
    written by the sink alone. *)
Record Inv (tasks : list Task) (k : SinkOutcome) (st : State) : Prop := {
  inv_done :
    exists done,
      Permutation (done ++ running st) tasks
      /\ Permutation (selections st ++ buffer st) (map sent done)
      /\ (forall t, In t done -> incl (printed t) (output st));
  inv_closed :
    closed st = Nat.eqb (List.length (selections st)) (List.length tasks);
  inv_past : pc st <> Collecting -> buffer st = [] /\ running st = [];
  inv_status : forall c, pc st = Exited c -> c = 0;
  inv_file :
    forall sels, file st = Holds sels ->
      sels = selections st /\ pc st = Exited 0
}.

(** A candidate whose lookup failed is kept: what the collection over
    [tasks] owes to the task [t] whose request ended in the error [e]. *)
Definition keeps_failed_candidate
    (k : SinkOutcome) (out : list Output) (tasks : list Task)
    (t : Task) (e : error) : Prop :=
  sent t =
    {| Selection_Ticker := Ticker (fst t);
       Selection_Position :=
         Calculate (Gap (fst t)) (OpeningPrice (fst t));
       Articles := [] |}
  /\ forall m st,
       run (List.length tasks) k m (init out tasks) st ->
       (m <= 2 * List.length tasks + 2)%nat
       /\ (pc st = Exited 0
           \/ exists st', step (List.length tasks) k st st')
       /\ (pc st <> Collecting ->
           Permutation (selections st) (map sent tasks)
           /\ In (ErrorLoadingNews (Ticker (fst t)) e) (output st))
       /\ (forall sels, file st = Holds sels ->
             Permutation sels (map sent tasks)).

(** What a failing sink does to a state [st] of [main] past the loop. *)
Definition reports_and_returns
    (n : nat) (k : SinkOutcome) (st : State) (e : error) : Prop :=
  (exists st', step n k st st')
  /\ forall st', step n k st st' ->
       pc st' = Exited 0
       /\ output st' = output st ++ [ErrorWritingOutput e]
       /\ selections st' = selections st
       /\ file st' = fst (Deliver k (selections st))
       /\ forall sels, file st' <> Holds sels.

(** ** A sample execution *)

Definition sample_ParseFloat (s : string) : option float64 :=
  if String.eqb s "0.15" then Some (lit 15 100)
  else if String.eqb s "0.05" then Some (lit 5 100)
  else if String.eqb s "100" then Some (of_int 100)
  else None.

Definition sample_stock : Stock :=
  {| Ticker := "XYZ"; Gap := lit 15 100; OpeningPrice := of_int 100 |}.

Definition sample_task : Task := (sample_stock, DoFails (External "timeout")).

Definition sample_sink : SinkOutcome := CreateFails (External "read-only").

Definition sample_world : World :=
  {| csv := Records [["Ticker"; "Gap"; "Open"]; ["XYZ"; "0.15"; "100"]]%string;
     news := fun _ => DoFails (External "timeout");
     sink := sample_sink |}.

(** A file whose only candidate is below the threshold. *)
Definition quiet_world : World :=
  {| csv := Records [["Ticker"; "Gap"; "Open"]; ["XYZ"; "0.05"; "100"]]%string;
     news := fun _ => DoFails (External "timeout");
     sink := Encoded |}.

Definition sample_delivering : State :=
  {| pc := Delivering;
     running := [];
     buffer := [];
     closed := true;
     selections := [sent sample_task];
     output := printed sample_task;
     file := Untouched |}.

Definition sample_exited : State :=
  {| pc := Exited 0;
     running := [];
     buffer := [];
     closed := true;
     selections := [sent sample_task];
     output :=
       printed sample_task
       ++ [ErrorWritingOutput (ErrorCreatingFile (External "read-only"))];
     file := Untouched |}.

(** ** Further notions used by the properties of the whole program *)

(** A number other than zero: finite and not zero, or infinite. *)
Definition nonzero_number (x : float64) : bool :=
  match x with
  | S754_finite _ _ _ | S754_infinity _ => true
  | _ => false
  end.

(** What a selection says of its stock, and what a stock is owed. *)
Definition plan_of_selection (sel : Selection) : string * Position :=
  (Selection_Ticker sel, Selection_Position sel).

Definition plan_of_stock (s : Stock) : string * Position :=
  (Ticker s, Calculate (Gap s) (OpeningPrice s)).

(** The line [main] prints after the sink has run. *)
Definition final_line (k : SinkOutcome) (selections : list Selection)
  : Output :=
  match snd (Deliver k selections) with
  | Some e => ErrorWritingOutput e
  | None => FinishedWriting outputPath
  end.

(** Every line printed so far is the line of a goroutine that has sent, and
    each such line is printed once. *)
Definition output_accounted
    (out : list Output) (tasks : list Task) (st : State) : Prop :=
  alive st ->
  Permutation (output st ++ List.concat (map printed (running st)))
              (out ++ List.concat (map printed tasks)).

(** * Properties *)

(** ** binary64 arithmetic: the constants and conversions at work *)

(** 0.1 is the binary64 [0x3FB999999999999A], 0.2 is [0x3FC999999999999A]. *)
Example threshold_value :
  threshold = S754_finite false 7205759403792794 (-56)
  /\ lossTolerance = S754_finite false 7205759403792794 (-55)
  /\ valid threshold = true.
Proof. vm_compute. repeat split. Qed.

Example Round_halves_away_from_zero :
  Round (lit 25 10) = of_int 3
  /\ Round (lit (-25) 10) = of_int (-3)
  /\ Round (lit 24 10) = of_int 2
  /\ Round (lit 4 10) = S754_zero false
  /\ Round (lit (-4) 10) = S754_zero true
  /\ Round (S754_infinity true) = S754_infinity true
  /\ Round S754_nan = S754_nan.
Proof. vm_compute. repeat split. Qed.

Example to_int_discards_fraction :
  to_int (lit 19167 100) = 191
  /\ to_int (lit (-15) 10) = -1
  /\ to_int (S754_zero true) = 0
  /\ to_int (S754_infinity false) = int_indefinite
  /\ floor (lit (-15) 10) = Some (-2).
Proof. vm_compute. repeat split. Qed.

(** ** Position sizer *)

Lemma maxLossPerTrade_value :
  maxLossPerTrade = S754_finite false 8796093022208000 (-42).
Proof. vm_compute. reflexivity. Qed.

Lemma maxLossPerTrade_is_2000 : maxLossPerTrade = of_int 2000.
Proof. vm_compute. reflexivity. Qed.

Lemma maxRiskBudget_policy : Spec.maxRiskBudget policy = maxLossPerTrade.
Proof. reflexivity. Qed.

(** Rounding keeps the sign it is given. *)
Lemma binary_round_aux_signbit (s : bool) (m e : Z) (l : location) :
  binary_round_aux prec emax s m e l = S754_nan \/
  signbit (binary_round_aux prec emax s m e l) = s.
Proof.
  unfold binary_round_aux.
  destruct (shr_fexp prec emax m e l) as [mrs' e'].
  destruct (shr_fexp prec emax _ e' loc_Exact) as [mrs'' e''].
  destruct (shr_m mrs'') as [|p|p].
  - right. reflexivity.
  - right. destruct (e'' <=? emax - prec); reflexivity.
  - left. reflexivity.
Qed.

(** A positive finite value divided by a magnitude is not negative. *)
Lemma div_by_Abs_signbit (m : positive) (e : Z) (y : float64) :
  signbit (div (S754_finite false m e) (Abs y)) = false.
Proof.
  destruct y as [s|s| |s my ey]; try reflexivity.
  unfold div, Abs, SFabs, SFdiv.
  destruct (SFdiv_core_binary prec emax (Z.pos m) e (Z.pos my) ey) as [[mz ez] lz].
  destruct (binary_round_aux_signbit (xorb false false) mz ez lz) as [H|H].
  - rewrite H. reflexivity.
  - exact H.
Qed.

(** Toward zero and downward agree away from the negative numbers. *)
Lemma floor_trunc (x : float64) :
  signbit x = false -> floor x = trunc x.
Proof.
  destruct x as [s|s| |s m e]; simpl; intros Hs; try reflexivity.
  subst s. destruct e; reflexivity.
Qed.

Lemma trunc_nonneg (x : float64) (z : Z) :
  signbit x = false -> trunc x = Some z -> 0 <= z.
Proof.
  destruct x as [s|s| |s m e]; cbn [trunc signbit]; intros Hs H;
    try discriminate.
  - assert (z = 0) by congruence. lia.
  - subst s. unfold cond_Zopp in H. destruct e as [|p|p].
    + assert (z = Z.pos m * 2 ^ 0) by congruence. lia.
    + assert (Hz : z = Z.pos m * 2 ^ Z.pos p) by congruence.
      rewrite Hz.
      apply Z.mul_nonneg_nonneg; [lia | apply Z.pow_nonneg; lia].
    + assert (Hz : z = Z.pos m / 2 ^ Z.pos p) by congruence.
      rewrite Hz.
      apply Z.div_pos; [lia | apply Z.pow_pos_nonneg; lia].
Qed.

(** Where the floor exists and an [int] holds it, the conversion yields it. *)
Lemma to_int_floor (x : float64) (z : Z) :
  signbit x = false -> floor x = Some z -> z <= max_int -> to_int x = z.
Proof.
  intros Hs Hf Hmax. rewrite (floor_trunc x Hs) in Hf.
  pose proof (trunc_nonneg x z Hs Hf) as H0.
  unfold to_int. rewrite Hf.
  replace (fits_int z) with true; [reflexivity|].
  symmetry. unfold fits_int, min_int.
  apply andb_true_intro; split; apply Z.leb_le; [|exact Hmax].
  transitivity 0; [|exact H0]. vm_compute. discriminate.
Qed.

Lemma Calculate_Shares (g o : float64) (z : Z) :
  Spec.shareCount policy g o = Some z -> z <= max_int ->
  Shares (Calculate g o) = z.
Proof.
  intros Hf Hmax.
  change (Shares (Calculate g o))
    with (to_int (div maxLossPerTrade
                      (Abs (sub (Spec.stopLossPrice policy g o) o)))).
  apply to_int_floor; [|exact Hf|exact Hmax].
  rewrite maxLossPerTrade_value. apply div_by_Abs_signbit.
Qed.


(** C1, as amended.  Whenever the quotient of step 5 has a floor that an
    [int] holds, [Calculate] returns the plan of the specification's steps:
    the share count is that floor, taken over the unrounded stop-loss price,
    and the entry, stop-loss and take-profit prices are the values of the
    steps rounded to two decimals. *)
Theorem Calculate_follows_sizing (gapPercent openingPrice : float64) (z : Z) :
  Spec.shareCount policy gapPercent openingPrice = Some z ->
  z <= max_int ->
  follows_sizing gapPercent openingPrice.
Proof.
  intros Hf Hmax. unfold follows_sizing.
  split; [|repeat split].
  rewrite (Calculate_Shares _ _ z Hf Hmax). exact Hf.
Qed.

Lemma Calculate_follows_sizing_witness :
  follows_sizing (lit 15 100) (of_int 100).
Proof.
  apply (Calculate_follows_sizing (lit 15 100) (of_int 100) 191).
  - vm_compute. reflexivity.
  - vm_compute. discriminate.
Defined.

(** C1, as stated, fails: a gap of 0.15 and an opening price of 1e-20 are
    finite, the gap is not -1, and the floor of step 5 is an integer beyond
    [2^63], which is not the share count [Calculate] returns. *)
Lemma sizing_fails_on_tiny_price :
  ~ (is_finite (lit 15 100) = true ->
     lit 15 100 <> of_int (-1) ->
     is_finite (lit 1 (10 ^ 20)) = true ->
     follows_sizing (lit 15 100) (lit 1 (10 ^ 20))).
Proof.
  intros H.
  assert (Hs : follows_sizing (lit 15 100) (lit 1 (10 ^ 20))).
  { apply H; vm_compute; [reflexivity | discriminate | reflexivity]. }
  destruct Hs as [Hs _]. vm_compute in Hs. discriminate Hs.
Qed.

(** The same input in figures: both values are of the format, the floor
    exceeds every [int], the conversion yields the indefinite integer. *)
Example tiny_price_share_count :
  valid (lit 15 100) = true /\ valid (lit 1 (10 ^ 20)) = true /\
  Spec.shareCount policy (lit 15 100) (lit 1 (10 ^ 20))
    = Some 1916666666666666231857152 /\
  Shares (Calculate (lit 15 100) (lit 1 (10 ^ 20))) = int_indefinite.
Proof. vm_compute. repeat split. Qed.

(** A zero opening price makes the quotient infinite: no floor at all. *)
Example zero_price_share_count :
  Spec.shareCount policy (lit 15 100) (of_int 0) = None /\
  Shares (Calculate (lit 15 100) (of_int 0)) = int_indefinite.
Proof. vm_compute. repeat split. Qed.

(** C2, as amended.  With balance 10000, loss tolerance 0.2 and profit
    capture 0.8 the risk budget is 2000, and for a gap of 0.15 at an opening
    price of 100 the sizer returns entry 100, stop-loss 110.43, take-profit
    89.57, 191 shares and an expected profit of 1993.04. *)
Theorem Calculate_scenario :
  maxLossPerTrade = of_int 2000 /\
  Calculate (lit 15 100) (of_int 100) =
  {| EntryPrice := of_int 100;
     Shares := 191;
     TakeProfitPrice := lit 8957 100;
     StopLossPrice := lit 11043 100;
     Profit := lit 199304 100 |}.
Proof. vm_compute. split; reflexivity. Qed.

(** C2, as stated, fails on the expected profit: the value returned is not
    1991.13, and is more than 1.9 away from it. *)
Lemma scenario_profit_is_not_1991_13 :
  Profit (Calculate (lit 15 100) (of_int 100)) <> lit 199113 100 /\
  ltb (lit 19 10)
      (Abs (sub (Profit (Calculate (lit 15 100) (of_int 100)))
                (lit 199113 100))) = true.
Proof. vm_compute. split; [discriminate | reflexivity]. Qed.

(** C3, as amended.  Over the unrounded prices of the sizing steps, and
    whenever the quotient has a floor that an [int] holds, the share count is
    the floor of the risk budget over the distance from the opening price to
    the stop-loss price, and the expected profit is the distance from the
    opening price to the take-profit price times the share count, rounded to
    two decimals twice. *)
Theorem plan_invariant_unrounded (gapPercent openingPrice : float64) (z : Z) :
  Spec.shareCount policy gapPercent openingPrice = Some z ->
  z <= max_int ->
  let p := Calculate gapPercent openingPrice in
  floor (div (Spec.maxRiskBudget policy)
             (Abs (sub (Spec.stopLossPrice policy gapPercent openingPrice)
                       openingPrice))) = Some (Shares p)
  /\ Profit p =
     Spec.round2
       (Spec.round2
          (mul (Abs (sub openingPrice
                         (Spec.takeProfitPrice policy gapPercent openingPrice)))
               (of_int (Shares p)))).
Proof.
  intros Hf Hmax p. split; [|reflexivity].
  unfold p. rewrite (Calculate_Shares _ _ z Hf Hmax). exact Hf.
Qed.

Lemma plan_invariant_unrounded_witness :
  floor (div (Spec.maxRiskBudget policy)
             (Abs (sub (Spec.stopLossPrice policy (lit 15 100) (of_int 100))
                       (of_int 100))))
    = Some (Shares (Calculate (lit 15 100) (of_int 100)))
  /\ Profit (Calculate (lit 15 100) (of_int 100)) =
     Spec.round2
       (Spec.round2
          (mul (Abs (sub (of_int 100)
                         (Spec.takeProfitPrice policy (lit 15 100) (of_int 100))))
               (of_int (Shares (Calculate (lit 15 100) (of_int 100)))))).
Proof.
  apply (plan_invariant_unrounded (lit 15 100) (of_int 100) 191).
  - vm_compute. reflexivity.
  - vm_compute. discriminate.
Defined.

(** C3, as stated, fails: over the rounded fields of the plan for a gap of
    0.15 at 100 the profit formula gives 1992.13, the plan holds 1993.04. *)
Lemma plan_invariant_fails_on_output_fields :
  ~ Spec.plan_invariant policy (Calculate (lit 15 100) (of_int 100)).
Proof.
  intros [_ H]. vm_compute in H. discriminate H.
Qed.

(** The share-count half fails too: for a gap of 0.1429 at 100 the plan
    holds 199 shares, its rounded stop-loss price 110.00 gives 200. *)
Example share_count_differs_on_output_fields :
  let p := Calculate (lit 1429 10000) (of_int 100) in
  Shares p = 199 /\
  floor (div (Spec.maxRiskBudget policy)
             (Abs (sub (StopLossPrice p) (EntryPrice p)))) = Some 200.
Proof. vm_compute. split; reflexivity. Qed.

(** C10.  A gap of -1 passes the filter, and for every positive finite
    opening price the implied prior close is [+Inf], the plan has 0 shares,
    take-profit price [+Inf], stop-loss price [-Inf] and profit NaN. *)
Theorem Calculate_gap_minus_one (ticker : string) (m : positive) (e : Z) :
  let o := S754_finite false m e in
  let p := Calculate (of_int (-1)) o in
  filter_stocks [{| Ticker := ticker; Gap := of_int (-1); OpeningPrice := o |}]
    = [{| Ticker := ticker; Gap := of_int (-1); OpeningPrice := o |}]
  /\ Spec.impliedPriorClose (of_int (-1)) o = S754_infinity false
  /\ Shares p = 0
  /\ TakeProfitPrice p = S754_infinity false
  /\ StopLossPrice p = S754_infinity true
  /\ Profit p = S754_nan.
Proof.
  intros o p. repeat split.
Qed.

(** ** Candidate filter *)

Lemma DeleteFunc_filter {A : Type} (del : A -> bool) (s : list A) :
  DeleteFunc s del = filter (fun x => negb (del x)) s.
Proof.
  induction s as [|x rest IH]; simpl; [reflexivity|].
  destruct (del x); simpl; rewrite IH; reflexivity.
Qed.

(** Comparing the other way round reverses the outcome. *)
Lemma SFcompare_antisym (x y : float64) :
  SFcompare y x = option_map CompOpp (SFcompare x y).
Proof.
  destruct x as [sx|sx| |sx mx ex], y as [sy|sy| |sy my ey];
    try reflexivity;
    try (destruct sx; reflexivity);
    try (destruct sy; reflexivity);
    try (destruct sx, sy; reflexivity).
  simpl. destruct sx, sy; try reflexivity;
    rewrite (Z.compare_antisym ex ey);
    destruct (ex ?= ey); simpl; try reflexivity;
    rewrite ?Pos.compare_cont_antisym; reflexivity.
Qed.

Lemma SFcompare_None (x y : float64) :
  SFcompare x y = None -> (is_nan x || is_nan y)%bool = true.
Proof.
  destruct x as [sx|sx| |sx mx ex], y as [sy|sy| |sy my ey];
    simpl; intros H; try reflexivity; discriminate H.
Qed.

(** Not below the threshold: at or above it, or not a number. *)
Lemma not_unworthy (s : Stock) :
  negb (unworthy s) = (material s || is_nan (Gap s))%bool.
Proof.
  unfold unworthy, material, ltb, leb, SFltb, SFleb.
  rewrite (SFcompare_antisym (Abs (Gap s)) threshold).
  destruct (SFcompare (Abs (Gap s)) threshold) as [c|] eqn:Hc.
  - assert (Hn : is_nan (Gap s) = false).
    { destruct (Gap s); try reflexivity. discriminate Hc. }
    rewrite Hn. destruct c; reflexivity.
  - apply SFcompare_None in Hc.
    replace (is_nan (Gap s)) with true; [reflexivity|].
    destruct (Gap s); simpl in Hc; try discriminate Hc; reflexivity.
Qed.

(** C7, as amended.  The filter outputs exactly the order-preserving
    subsequence of the rows whose gap magnitude is not below 0.10: the rows
    with [|gapPercent| >= 0.10] (0.10 itself included) and the rows whose gap
    is NaN; no row with [|gapPercent| < 0.10] is in the output. *)
Theorem filter_stocks_keeps_not_below (stocks : list Stock) :
  filter_stocks stocks
    = filter (fun s => (material s || is_nan (Gap s))%bool) stocks
  /\ (forall s, In s (filter_stocks stocks) ->
        In s stocks /\ ltb (Abs (Gap s)) threshold = false)
  /\ (forall ticker o,
        filter_stocks [{| Ticker := ticker; Gap := threshold;
                          OpeningPrice := o |}]
        = [{| Ticker := ticker; Gap := threshold; OpeningPrice := o |}]).
Proof.
  unfold filter_stocks. rewrite DeleteFunc_filter. split; [|split].
  - apply filter_ext. intros s. apply not_unworthy.
  - intros s Hin. apply filter_In in Hin. destruct Hin as [Hin Hk].
    split; [exact Hin|]. apply negb_true_iff in Hk. exact Hk.
  - intros ticker o. reflexivity.
Qed.

(** C7, as stated, fails: a row whose gap is NaN is not a row with
    [|gapPercent| >= 0.10], and the filter keeps it. *)
Lemma filter_keeps_nan_gap :
  filter_stocks
    [{| Ticker := "XYZ"; Gap := S754_nan; OpeningPrice := of_int 100 |}]
  <> filter material
    [{| Ticker := "XYZ"; Gap := S754_nan; OpeningPrice := of_int 100 |}].
Proof. vm_compute. discriminate. Qed.

(** ** Loader *)

Section LoaderFacts.
Variable ParseFloat : string -> option float64.

Lemma load_rows_eq (rows : list (list string)) (stocks : list Stock) :
  load_rows ParseFloat rows stocks =
  if existsb (panicking_row ParseFloat) rows then Panics
  else Returns (stocks ++ parsed ParseFloat rows).
Proof.
  revert stocks.
  induction rows as [|row rest IH]; intros stocks.
  - simpl. rewrite app_nil_r. reflexivity.
  - destruct row as [|ticker [|field1 [|field2 more]]];
      try reflexivity; cbn [load_rows index_at nth_error bind
                            panicking_row parse_row parsed existsb].
    + destruct (ParseFloat field1); [reflexivity|].
      cbn [orb]. apply IH.
    + cbn [orb]. destruct (ParseFloat field1) as [gap|]; [|apply IH].
      destruct (ParseFloat field2) as [openingPrice|]; [|apply IH].
      rewrite IH. destruct (existsb _ rest); [reflexivity|].
      rewrite <- app_assoc. reflexivity.
Qed.

Lemma Load_eq (rows : list (list string)) :
  Load ParseFloat (Records rows) =
  match rows with
  | [] => Panics
  | _ :: data =>
      if existsb (panicking_row ParseFloat) data then Panics
      else Returns ([], (parsed ParseFloat data, None))
  end.
Proof.
  destruct rows as [|header data]; [reflexivity|].
  unfold Load, Delete. cbn [List.length Nat.leb andb firstn skipn app bind].
  rewrite load_rows_eq. destruct (existsb _ data); reflexivity.
Qed.

Lemma shaped_rows_do_not_panic (rows : list (list string)) :
  Forall (fun row => (3 <= List.length row)%nat) rows ->
  existsb (panicking_row ParseFloat) rows = false.
Proof.
  induction 1 as [|row rest Hrow _ IH]; [reflexivity|].
  simpl. rewrite IH.
  destruct row as [|a [|b [|c more]]]; simpl in Hrow; try lia.
  reflexivity.
Qed.

(** C9, as amended.  [Load] panics exactly when the row list is empty
    (deleting the header) or some row after the header has fewer than two
    fields (indexing [row[1]]) or has two fields of which the second parses
    (indexing [row[2]]); when a header is there and every row has at least
    three fields it returns the stocks of the rows that parse and a nil
    error. *)
Theorem Load_panics_iff (rows : list (list string)) :
  (Load ParseFloat (Records rows) = Panics <->
   rows = [] \/ existsb (panicking_row ParseFloat) (tl rows) = true)
  /\ (well_shaped rows ->
      Load ParseFloat (Records rows)
      = Returns ([], (parsed ParseFloat (tl rows), None))).
Proof.
  rewrite Load_eq. split.
  - destruct rows as [|header data]; cbn [tl].
    + split; intros _; [left|]; reflexivity.
    + destruct (existsb _ data); split; intros H.
      * right. reflexivity.
      * reflexivity.
      * discriminate H.
      * destruct H as [H|H]; discriminate H.
  - intros [Hne Hall]. destruct rows as [|header data]; [contradiction|].
    cbn [tl]. inversion Hall as [|? ? _ Hdata]; subst.
    rewrite (shaped_rows_do_not_panic data Hdata). reflexivity.
Qed.
End LoaderFacts.

(** C9, as stated, fails in its "only": a file holding nothing but a
    one-field header is not of the shape required, and [Load] returns. *)
Lemma header_only_file_does_not_panic :
  ~ panic_free_only_if_shaped (fun _ => None) [["Ticker"%string]].
Proof.
  intros H.
  assert (Hs : well_shaped [["Ticker"%string]]).
  { apply H. vm_compute. discriminate. }
  destruct Hs as [_ Hall]. inversion Hall as [|? ? Hrow _]; subst.
  simpl in Hrow. lia.
Qed.

(** Nor does a two-field row whose second field does not parse. *)
Example unparsed_short_row_does_not_panic :
  Load (fun _ => None)
       (Records [["Ticker"; "Gap"]; ["XYZ"; "n/a"]]%string)
  = Returns ([], ([], None)).
Proof. reflexivity. Qed.

(** ** News adapter *)

Lemma FetchNews_error_no_articles (h : HttpOutcome) (e : error) :
  snd (FetchNews h) = Some e -> fst (FetchNews h) = [].
Proof.
  destruct h as [e'|e'|code res derr]; simpl; try reflexivity.
  destruct ((code <? 200) || (code >? 299))%bool; simpl;
    [reflexivity | discriminate].
Qed.

(** The cases in which [FetchNews] returns an error. *)
Lemma FetchNews_fails_iff (h : HttpOutcome) :
  snd (FetchNews h) <> None <->
  match h with
  | NewRequestFails _ | DoFails _ => True
  | Response code _ _ => code < 200 \/ 299 < code
  end.
Proof.
  destruct h as [e|e|code res derr]; simpl;
    try (split; [trivial | discriminate]).
  rewrite Z.gtb_ltb.
  destruct (Z.ltb_spec code 200) as [Ha|Ha];
    destruct (Z.ltb_spec 299 code) as [Hb|Hb]; simpl;
    split; intros Hx; try discriminate; try lia; congruence.
Qed.

(** C6 at its failing input: a response with a success status whose body
    [Decode] rejects.  Whatever [Decode] returns is dropped: for every status
    from 200 to 299 [FetchNews] returns what reached [res] and a nil
    error. *)
Theorem FetchNews_drops_decode_error
    (code : Z) (res : SeekingAlphaResponse) (decodeErr : option error) :
  200 <= code <= 299 ->
  FetchNews (Response code res decodeErr) = (map article_of (Data res), None).
Proof.
  intros [Hlo Hhi]. unfold FetchNews. rewrite Z.gtb_ltb.
  destruct (Z.ltb_spec code 200) as [Ha|_]; [lia|].
  destruct (Z.ltb_spec 299 code) as [Hb|_]; [lia|].
  reflexivity.
Qed.

Lemma FetchNews_drops_decode_error_witness :
  FetchNews
    (Response 200 {| Data := [] |}
       (Some (External "unexpected end of JSON input")))
  = ([], None).
Proof.
  apply (FetchNews_drops_decode_error 200 {| Data := [] |}
           (Some (External "unexpected end of JSON input"))).
  lia.
Defined.

(** ** Fan-out and collection *)

Section CoordinatorFacts.
Local Open Scope nat_scope.

Variable k : SinkOutcome.

(** Every step uses up one unit of [weight], whatever the count. *)
Lemma step_weight (n : nat) (st st' : State) :
  step n k st st' -> S (weight st') <= weight st.
Proof.
  intros Hstep. unfold weight.
  destruct Hstep as
    [st before t after Hal Hrun Hcl Hcap
    |st before t after Hal Hrun Hcl
    |st sel rest Hpc Hbuf Hlen
    |st sel rest Hpc Hbuf Hlen Hcl
    |st sel rest Hpc Hbuf Hlen Hcl
    |st Hpc Hbuf Hcl
    |st Hpc]; cbn [pc running buffer];
    try rewrite Hrun; try rewrite Hbuf; try rewrite Hpc;
    rewrite ?length_app; cbn [List.length]; lia.
Qed.

Lemma run_weight (n m : nat) (st st' : State) :
  run n k m st st' -> m + weight st' <= weight st.
Proof.
  induction 1 as [st|m st st1 st2 Hstep _ IH]; [lia|].
  apply step_weight in Hstep. lia.
Qed.

Variable tasks : list Task.
Local Abbreviation n := (List.length tasks).

Lemma Inv_lengths (st : State) :
  Inv tasks k st ->
  List.length (selections st) + List.length (buffer st)
    + List.length (running st) = n.
Proof.
  intros [[done [Hd [Hs _]]] _ _ _ _].
  apply Permutation_length in Hd, Hs.
  rewrite length_app in Hd, Hs. rewrite length_map in Hs. lia.
Qed.

Lemma Inv_init (out : list Output) :
  tasks <> [] -> Inv tasks k (init out tasks).
Proof.
  intros Hne. constructor; cbn [init pc running buffer closed selections
                                output file].
  - exists []. split; [apply Permutation_refl|].
    split; [apply Permutation_refl|]. intros t [].
  - destruct tasks; [contradiction|reflexivity].
  - intros H. contradiction.
  - intros c H. discriminate H.
  - intros sels H. discriminate H.
Qed.

Lemma Inv_step (st st' : State) :
  Inv tasks k st -> step n k st st' -> Inv tasks k st'.
Proof.
  intros HI Hstep. pose proof (Inv_lengths st HI) as Hlen.
  destruct HI as [[done [Hd [Hs Hout]]] Hclosed Hpast Hstatus Hfile].
  destruct Hstep as
    [st before t after Hal Hrun Hcl Hcap
    |st before t after Hal Hrun Hcl
    |st sel rest Hpc Hbuf Hn
    |st sel rest Hpc Hbuf Hn Hcl
    |st sel rest Hpc Hbuf Hn Hcl
    |st Hpc Hbuf Hcl
    |st Hpc].
  - (* a goroutine sends *)
    assert (Hcoll : pc st = Collecting).
    { destruct (pc st) eqn:Hpc; [reflexivity| |].
      - destruct Hpast as [_ Hr]; [discriminate|].
        rewrite Hr in Hrun. destruct before; discriminate Hrun.
      - unfold alive in Hal. rewrite Hpc in Hal. contradiction. }
    constructor; cbn [pc running buffer closed selections output file].
    + exists (t :: done). split; [|split].
      * rewrite Hrun in Hd. rewrite <- Hd.
        rewrite <- app_comm_cons. rewrite !app_assoc.
        apply Permutation_middle.
      * cbn [map]. rewrite app_assoc.
        rewrite <- Permutation_cons_append.
        apply perm_skip. exact Hs.
      * intros t' [<-|Hin].
        -- apply incl_appr. apply incl_refl.
        -- apply incl_appl. apply Hout. exact Hin.
    + exact Hclosed.
    + intros H. contradiction.
    + intros c H. rewrite Hcoll in H. discriminate H.
    + intros sels H. apply Hfile in H. destruct H as [_ H].
      rewrite Hcoll in H. discriminate H.
  - (* a send on the closed channel: there is no goroutine left *)
    exfalso. rewrite Hcl in Hclosed. symmetry in Hclosed.
    apply Nat.eqb_eq in Hclosed.
    rewrite Hrun, length_app in Hlen. cbn [List.length] in Hlen. lia.
  - (* main receives *)
    rewrite Hbuf in Hs, Hlen. cbn [List.length] in Hlen.
    rewrite length_app in Hn. cbn [List.length] in Hn.
    constructor; cbn [pc running buffer closed selections output file].
    + exists done. split; [exact Hd|]. split; [|exact Hout].
      rewrite <- app_assoc. exact Hs.
    + rewrite Hclosed. rewrite length_app. cbn [List.length].
      transitivity false; [|symmetry]; apply Nat.eqb_neq; lia.
    + intros H. contradiction.
    + intros c H. discriminate H.
    + intros sels H. apply Hfile in H. destruct H as [_ H].
      rewrite Hpc in H. discriminate H.
  - (* main receives the last one and closes *)
    rewrite Hbuf in Hs.
    constructor; cbn [pc running buffer closed selections output file].
    + exists done. split; [exact Hd|]. split; [|exact Hout].
      rewrite <- app_assoc. exact Hs.
    + symmetry. apply Nat.eqb_eq. exact Hn.
    + intros H. contradiction.
    + intros c H. discriminate H.
    + intros sels H. apply Hfile in H. destruct H as [_ H].
      rewrite Hpc in H. discriminate H.
  - (* a second close: the channel is closed only when nothing is left *)
    exfalso. rewrite Hcl in Hclosed. symmetry in Hclosed.
    apply Nat.eqb_eq in Hclosed.
    rewrite Hbuf in Hlen. cbn [List.length] in Hlen. lia.
  - (* the range loop ends *)
    rewrite Hcl in Hclosed. symmetry in Hclosed.
    apply Nat.eqb_eq in Hclosed.
    assert (Hr : running st = []).
    { apply length_zero_iff_nil. lia. }
    constructor; cbn [pc running buffer closed selections output file].
    + exists done. rewrite Hbuf in Hs. split; [exact Hd|].
      split; [exact Hs|exact Hout].
    + symmetry. apply Nat.eqb_eq. exact Hclosed.
    + intros _. split; [reflexivity|exact Hr].
    + intros c H. discriminate H.
    + intros sels H. apply Hfile in H. destruct H as [_ H].
      rewrite Hpc in H. discriminate H.
  - (* the sink runs and main returns *)
    destruct Hpast as [Hb Hr]; [rewrite Hpc; discriminate|].
    constructor; cbn [pc running buffer closed selections output file].
    + exists done. split; [exact Hd|]. split; [exact Hs|].
      intros t Hin. apply incl_appl. apply Hout. exact Hin.
    + exact Hclosed.
    + intros _. split; assumption.
    + intros c H. injection H as <-. reflexivity.
    + intros sels H. split; [|reflexivity].
      destruct k; cbn [Deliver fst] in H; try discriminate H.
      injection H as <-. reflexivity.
Qed.

Lemma Inv_run (m : nat) (st st' : State) :
  Inv tasks k st -> run n k m st st' -> Inv tasks k st'.
Proof.
  intros HI Hrun. induction Hrun as [st|m st st1 st2 Hstep _ IH];
    [exact HI|].
  apply IH. apply (Inv_step st); assumption.
Qed.

(** No deadlock and no stop short of the end. *)
Lemma Inv_progress (st : State) :
  Inv tasks k st -> pc st = Exited 0 \/ exists st', step n k st st'.
Proof.
  intros HI. pose proof (Inv_lengths st HI) as Hlen.
  destruct HI as [_ Hclosed Hpast Hstatus _].
  destruct (pc st) as [| |c] eqn:Hpc.
  - right. destruct (buffer st) as [|sel rest] eqn:Hbuf.
    + destruct (running st) as [|t after] eqn:Hrun.
      * eexists. apply step_range_end; [exact Hpc|exact Hbuf|].
        rewrite Hclosed. apply Nat.eqb_eq.
        cbn [List.length] in Hlen. lia.
      * eexists. apply (step_send n k st [] t after).
        -- unfold alive. rewrite Hpc. exact I.
        -- exact Hrun.
        -- rewrite Hclosed. apply Nat.eqb_neq.
           cbn [List.length] in Hlen. lia.
        -- rewrite Hbuf. cbn [List.length] in *. lia.
    + destruct (Nat.eq_dec (List.length (selections st ++ [sel])) n)
        as [Heq|Hneq].
      * eexists. apply (step_receive_close n k st sel rest);
          [exact Hpc|exact Hbuf|exact Heq|].
        rewrite Hclosed. apply Nat.eqb_neq.
        rewrite length_app in Heq. cbn [List.length] in Heq. lia.
      * eexists. apply (step_receive n k st sel rest);
          [exact Hpc|exact Hbuf|exact Hneq].
  - right. eexists. apply step_deliver. exact Hpc.
  - left. rewrite (Hstatus c eq_refl). reflexivity.
Qed.

(** Once [main] is past the loop the batch holds one selection per
    candidate, and every goroutine has printed its lines. *)
Lemma Inv_complete (st : State) :
  Inv tasks k st -> pc st <> Collecting ->
  Permutation (selections st) (map sent tasks)
  /\ forall t, In t tasks -> incl (printed t) (output st).
Proof.
  intros [[done [Hd [Hs Hout]]] _ Hpast _ _] Hpc.
  destruct (Hpast Hpc) as [Hb Hr].
  rewrite Hr, app_nil_r in Hd. rewrite Hb, app_nil_r in Hs.
  split.
  - rewrite Hs. apply Permutation_map. exact Hd.
  - intros t Hin. apply Hout.
    apply (Permutation_in t (Permutation_sym Hd)). exact Hin.
Qed.
End CoordinatorFacts.

Lemma printed_reports_error (t : Task) (e : error) :
  snd (FetchNews (snd t)) = Some e ->
  In (ErrorLoadingNews (Ticker (fst t)) e) (printed t).
Proof.
  unfold printed, worker. destruct (FetchNews (snd t)) as [articles err].
  cbn [snd fst]. intros ->. left. reflexivity.
Qed.

Lemma sent_without_articles (t : Task) (e : error) :
  snd (FetchNews (snd t)) = Some e ->
  sent t =
    {| Selection_Ticker := Ticker (fst t);
       Selection_Position := Calculate (Gap (fst t)) (OpeningPrice (fst t));
       Articles := [] |}.
Proof.
  intros He. pose proof (FetchNews_error_no_articles _ _ He) as Hnil.
  unfold sent, worker. destruct (FetchNews (snd t)) as [articles err].
  cbn [fst snd] in *. rewrite Hnil. reflexivity.
Qed.

(** The collection over a non-empty batch: every run is at most
    [2 * len(stocks) + 2] steps long, stops only when [main] has returned
    with status 0, and leaves the loop with [len(stocks)] selections. *)
Lemma collection_completes
    (k : SinkOutcome) (out : list Output) (tasks : list Task)
    (m : nat) (st : State) :
  tasks <> [] ->
  run (List.length tasks) k m (init out tasks) st ->
  (m <= 2 * List.length tasks + 2)%nat
  /\ (pc st = Exited 0 \/ exists st', step (List.length tasks) k st st')
  /\ (pc st <> Collecting ->
      List.length (selections st) = List.length tasks).
Proof.
  intros Hne Hrun.
  pose proof (Inv_run k tasks m _ _ (Inv_init k tasks out Hne) Hrun) as HI.
  split; [|split].
  - apply run_weight in Hrun. unfold weight at 2 in Hrun.
    cbn [init pc running buffer List.length] in Hrun. lia.
  - apply (Inv_progress k tasks). exact HI.
  - intros Hpc. destruct (Inv_complete k tasks st HI Hpc) as [Hperm _].
    apply Permutation_length in Hperm. rewrite length_map in Hperm.
    exact Hperm.
Qed.

(** Without a candidate nothing ever moves. *)
Lemma empty_batch_stuck (k : SinkOutcome) (out : list Output) (st' : State) :
  ~ step 0 k (init out []) st'.
Proof.
  intros Hstep. inversion Hstep as
    [st before t after Hal Hrun Hcl Hcap
    |st before t after Hal Hrun Hcl
    |st sel rest Hpc Hbuf Hn
    |st sel rest Hpc Hbuf Hn Hcl
    |st sel rest Hpc Hbuf Hn Hcl
    |st Hpc Hbuf Hcl
    |st Hpc]; subst; cbn [init pc running buffer closed] in *;
    try discriminate; destruct before; discriminate.
Qed.

Lemma empty_batch_run
    (k : SinkOutcome) (out : list Output) (m : nat) (st : State) :
  run 0 k m (init out []) st -> m = O /\ st = init out [].
Proof.
  intros Hrun. inversion Hrun as [st0|m' st0 st1 st2 Hstep _]; subst.
  - split; reflexivity.
  - exfalso. exact (empty_batch_stuck k out st1 Hstep).
Qed.

(** C4 at its failing input, no candidate left by the filter.  The range
    loop is entered over a channel nobody sends on and nobody closes: the
    state is in the loop, no step leaves it, and the only run is the empty
    one; the sink is never reached. *)
Theorem collection_deadlocks_on_empty_batch
    (k : SinkOutcome) (out : list Output) :
  pc (init out []) = Collecting
  /\ (forall st', ~ step 0 k (init out []) st')
  /\ (forall m st, run 0 k m (init out []) st -> st = init out []).
Proof.
  split; [reflexivity|]. split.
  - intros st'. apply empty_batch_stuck.
  - intros m st Hrun. apply (empty_batch_run k out m st Hrun).
Qed.

(** [main] gets there from a file whose only row is below the threshold,
    and from a file with a header alone. *)
Example main_start_quiet :
  main_start sample_ParseFloat quiet_world = (O, init [] []).
Proof. vm_compute. reflexivity. Qed.

Example main_start_header_only :
  main_start sample_ParseFloat
    {| csv := Records [["Ticker"; "Gap"; "Open"]]%string;
       news := fun _ => DoFails (External "timeout");
       sink := Encoded |}
  = (O, init [] []).
Proof. vm_compute. reflexivity. Qed.

(** C5.  A candidate whose news lookup returns an error is sent with its
    ticker, its position and an empty article list; every run of the
    collection is bounded, stops only when [main] has returned with status 0,
    and once past the loop holds exactly one selection per candidate, that
    one included; the failure is among the printed lines. *)
Theorem failed_lookup_keeps_candidate
    (k : SinkOutcome) (out : list Output) (tasks : list Task)
    (t : Task) (e : error) :
  In t tasks ->
  snd (FetchNews (snd t)) = Some e ->
  keeps_failed_candidate k out tasks t e.
Proof.
  intros Hin He.
  assert (Hne : tasks <> []) by (intros ->; contradiction).
  split; [apply (sent_without_articles t e He)|].
  intros m st Hrun.
  pose proof (Inv_run k tasks m _ _ (Inv_init k tasks out Hne) Hrun) as HI.
  destruct (collection_completes k out tasks m st Hne Hrun) as [Hm [Hp _]].
  split; [exact Hm|]. split; [exact Hp|]. split.
  - intros Hpc. destruct (Inv_complete k tasks st HI Hpc) as [Hperm Hout].
    split; [exact Hperm|].
    apply (Hout t Hin). apply printed_reports_error. exact He.
  - intros sels Hfile. destruct (inv_file _ _ _ HI sels Hfile) as [-> Hpc].
    apply (Inv_complete k tasks st HI). rewrite Hpc. discriminate.
Qed.

Lemma failed_lookup_keeps_candidate_witness :
  keeps_failed_candidate sample_sink [] [sample_task] sample_task
    (External "timeout").
Proof.
  apply (failed_lookup_keeps_candidate sample_sink [] [sample_task]
           sample_task (External "timeout")).
  - left. reflexivity.
  - reflexivity.
Defined.

(** The sample execution, goroutine first: send, receive and close, end of
    the loop, sink. *)
Lemma sample_run_to_sink :
  run 1 sample_sink 3 (init [] [sample_task]) sample_delivering.
Proof.
  eapply run_step.
  { apply (step_send 1 sample_sink (init [] [sample_task]) [] sample_task []);
      [exact I | reflexivity | reflexivity | apply Nat.lt_0_1]. }
  eapply run_step.
  { eapply (step_receive_close 1 sample_sink _ (sent sample_task) []);
      reflexivity. }
  eapply run_step.
  { eapply step_range_end; reflexivity. }
  apply run_done.
Qed.

Lemma sample_run_to_exit :
  run 1 sample_sink 4 (init [] [sample_task]) sample_exited.
Proof.
  eapply run_step.
  { apply (step_send 1 sample_sink (init [] [sample_task]) [] sample_task []);
      [exact I | reflexivity | reflexivity | apply Nat.lt_0_1]. }
  eapply run_step.
  { eapply (step_receive_close 1 sample_sink _ (sent sample_task) []);
      reflexivity. }
  eapply run_step.
  { eapply step_range_end; reflexivity. }
  eapply run_step.
  { apply (step_deliver 1 sample_sink sample_delivering). reflexivity. }
  apply run_done.
Qed.

(** C8, as amended.  When the sink fails, [main] past the loop has one step
    to take: it prints the error and returns, so the run ends with exit
    status 0; the batch is not in the output file and no success line is
    printed. *)
Theorem sink_failure_reported_exit_zero
    (k : SinkOutcome) (out : list Output) (tasks : list Task)
    (m : nat) (st : State) (e : error) :
  run (List.length tasks) k m (init out tasks) st ->
  pc st = Delivering ->
  snd (Deliver k (selections st)) = Some e ->
  reports_and_returns (List.length tasks) k st e.
Proof.
  intros Hrun Hpc He.
  destruct tasks as [|t0 rest].
  { apply empty_batch_run in Hrun. destruct Hrun as [_ ->].
    discriminate Hpc. }
  assert (Hne : t0 :: rest <> []) by discriminate.
  pose proof (Inv_run k _ m _ _ (Inv_init k _ out Hne) Hrun) as HI.
  destruct (inv_past _ _ _ HI) as [Hb Hr]; [rewrite Hpc; discriminate|].
  split.
  - eexists. apply step_deliver. exact Hpc.
  - intros st' Hstep. inversion Hstep as
      [st1 before t after Hal Hrun' Hcl Hcap
      |st1 before t after Hal Hrun' Hcl
      |st1 sel rest' Hpc' Hbuf Hn
      |st1 sel rest' Hpc' Hbuf Hn Hcl
      |st1 sel rest' Hpc' Hbuf Hn Hcl
      |st1 Hpc' Hbuf Hcl
      |st1 Hpc']; subst;
      try (rewrite Hr in Hrun'; destruct before; discriminate Hrun');
      try (rewrite Hpc in Hpc'; discriminate Hpc').
    cbn [pc output selections file]. rewrite He.
    repeat split.
    intros sels Hf. destruct k; cbn [Deliver fst snd] in *;
      discriminate.
Qed.

Lemma sink_failure_reported_exit_zero_witness :
  reports_and_returns 1 sample_sink sample_delivering
    (ErrorCreatingFile (External "read-only")).
Proof.
  apply (sink_failure_reported_exit_zero sample_sink [] [sample_task] 3
           sample_delivering (ErrorCreatingFile (External "read-only"))).
  - exact sample_run_to_sink.
  - reflexivity.
  - reflexivity.
Defined.

(** C8, as stated, fails: in the sample execution the sink fails and the
    exit status is 0. *)
Lemma sink_failure_exit_status_is_zero :
  ~ exits_nonzero_on_sink_failure 1 sample_sink (init [] [sample_task]).
Proof.
  intros H.
  apply (H 4%nat sample_exited 0 sample_run_to_exit eq_refl).
  - discriminate.
  - reflexivity.
Qed.

(** The sample execution is the one of [main] on the sample input. *)
Example main_start_sample :
  main_start sample_ParseFloat sample_world = (1%nat, init [] [sample_task]).
Proof. vm_compute. reflexivity. Qed.

(** * Further properties of the code *)

(** ** Position sizer: degenerate inputs and signs *)

Lemma Abs_signbit (x : float64) : signbit (Abs x) = false.
Proof. destruct x; reflexivity. Qed.

Lemma binary_round_aux_not_negative (m e : Z) (l : location) :
  signbit (binary_round_aux prec emax false m e l) = false.
Proof.
  destruct (binary_round_aux_signbit false m e l) as [H|H];
    [rewrite H; reflexivity | exact H].
Qed.

Lemma binary_round_not_negative (m : positive) (e : Z) :
  signbit (binary_round prec emax false m e) = false.
Proof.
  unfold binary_round.
  destruct (shl_align m e _) as [mz ez].
  apply binary_round_aux_not_negative.
Qed.

Lemma of_int_not_negative (z : Z) : 0 <= z -> signbit (of_int z) = false.
Proof.
  intros Hz. unfold of_int, binary_normalize.
  destruct z as [|p|p]; [reflexivity | apply binary_round_not_negative | lia].
Qed.

Lemma mul_not_negative (x y : float64) :
  signbit x = false -> signbit y = false -> signbit (mul x y) = false.
Proof.
  destruct x as [sx|sx| |sx mx ex], y as [sy|sy| |sy my ey];
    cbn [signbit]; intros Hx Hy; subst; try reflexivity.
  unfold mul, SFmul. cbn [xorb]. apply binary_round_aux_not_negative.
Qed.

Lemma div_not_negative (x y : float64) :
  signbit x = false -> signbit y = false -> signbit (div x y) = false.
Proof.
  destruct x as [sx|sx| |sx mx ex], y as [sy|sy| |sy my ey];
    cbn [signbit]; intros Hx Hy; subst; try reflexivity.
  unfold div, SFdiv.
  destruct (SFdiv_core_binary prec emax (Z.pos mx) ex (Z.pos my) ey)
    as [[mz ez] lz].
  cbn [xorb]. apply binary_round_aux_not_negative.
Qed.

Lemma Round_not_negative (x : float64) :
  signbit x = false -> signbit (Round x) = false.
Proof.
  destruct x as [s|s| |s m e]; cbn [signbit]; intros Hs; subst;
    try reflexivity.
  destruct e as [|p|p]; try reflexivity.
  unfold Round.
  assert (Hq : 0 <= Z.pos m / 2 ^ Z.pos p).
  { apply Z.div_pos; [lia | apply Z.pow_pos_nonneg; lia]. }
  set (q := Z.pos m / 2 ^ Z.pos p) in *.
  set (n := if 2 ^ Z.pos p <=? 2 * (Z.pos m mod 2 ^ Z.pos p)
            then q + 1 else q).
  assert (Hn : 0 <= n).
  { unfold n. destruct (_ <=? _); lia. }
  unfold cond_Zopp. apply of_int_not_negative in Hn. exact Hn.
Qed.

Lemma round2_not_negative (x : float64) :
  signbit x = false -> signbit (Spec.round2 x) = false.
Proof.
  intros Hx. unfold Spec.round2.
  apply div_not_negative; [|reflexivity].
  apply Round_not_negative. apply mul_not_negative; [exact Hx|reflexivity].
Qed.

(** X1.  The share count is the integer part of a quotient that is never
    negative: it lies in [0, 2^63 - 1] unless the conversion was out of
    range. *)
Theorem Calculate_Shares_range (gapPercent openingPrice : float64) :
  Shares (Calculate gapPercent openingPrice) = int_indefinite
  \/ 0 <= Shares (Calculate gapPercent openingPrice) <= max_int.
Proof.
  change (Shares (Calculate gapPercent openingPrice))
    with (to_int (div maxLossPerTrade
            (Abs (sub (Spec.stopLossPrice policy gapPercent openingPrice)
                      openingPrice)))).
  set (q := div maxLossPerTrade _).
  assert (Hq : signbit q = false).
  { unfold q. rewrite maxLossPerTrade_value. apply div_by_Abs_signbit. }
  unfold to_int. destruct (trunc q) as [z|] eqn:Ht; [|left; reflexivity].
  destruct (fits_int z) eqn:Hfit; [|left; reflexivity].
  right. split; [exact (trunc_nonneg q z Hq Ht)|].
  unfold fits_int in Hfit. apply andb_true_iff in Hfit.
  destruct Hfit as [_ Hmax]. apply Z.leb_le. exact Hmax.
Qed.

(** X2.  With a share count that is not negative the expected profit is not
    negative either: its sign bit is clear (it is [+0], positive, [+Inf] or
    NaN). *)
Theorem Calculate_Profit_not_negative (gapPercent openingPrice : float64) :
  0 <= Shares (Calculate gapPercent openingPrice) ->
  signbit (Profit (Calculate gapPercent openingPrice)) = false.
Proof.
  intros Hs.
  change (Profit (Calculate gapPercent openingPrice))
    with (Spec.round2
            (Spec.round2
               (mul (Abs (sub openingPrice
                            (Spec.takeProfitPrice policy gapPercent
                               openingPrice)))
                    (of_int (Shares (Calculate gapPercent openingPrice)))))).
  apply round2_not_negative. apply round2_not_negative.
  apply mul_not_negative; [apply Abs_signbit|].
  apply of_int_not_negative. exact Hs.
Qed.

Lemma Calculate_Profit_not_negative_witness :
  signbit (Profit (Calculate (lit 15 100) (of_int 100))) = false.
Proof.
  apply (Calculate_Profit_not_negative (lit 15 100) (of_int 100)).
  vm_compute. discriminate.
Defined.

(** X3.  A gap that is NaN passes the filter, and whatever the opening price the
    plan has NaN take-profit, stop-loss and profit, and the share count of
    an out-of-range conversion. *)
Theorem Calculate_nan_gap (ticker : string) (openingPrice : float64) :
  let p := Calculate S754_nan openingPrice in
  filter_stocks
    [{| Ticker := ticker; Gap := S754_nan; OpeningPrice := openingPrice |}]
  = [{| Ticker := ticker; Gap := S754_nan; OpeningPrice := openingPrice |}]
  /\ Shares p = int_indefinite
  /\ TakeProfitPrice p = S754_nan
  /\ StopLossPrice p = S754_nan
  /\ Profit p = S754_nan.
Proof.
  intros p. split; [reflexivity|].
  unfold p. destruct openingPrice as [s|s| |s m e]; repeat split.
Qed.

(** X4.  An opening price of zero, with [1 + gapPercent] any number but zero:
    the quotient of step 5 is [2000 / 0], so the share count is that of an
    out-of-range conversion, and the three prices returned are zero. *)
Theorem Calculate_zero_price (gapPercent : float64) (s : bool) :
  nonzero_number (add (of_int 1) gapPercent) = true ->
  let p := Calculate gapPercent (S754_zero s) in
  Spec.shareCount policy gapPercent (S754_zero s) = None
  /\ Shares p = int_indefinite
  /\ is_finite (EntryPrice p) = true /\ Abs (EntryPrice p) = S754_zero false
  /\ Abs (TakeProfitPrice p) = S754_zero false
  /\ Abs (StopLossPrice p) = S754_zero false.
Proof.
  intros Hd p. unfold p, Spec.shareCount, Spec.stopLossPrice,
    Spec.profitFromGap, Spec.gapValue, Spec.impliedPriorClose, Calculate.
  destruct (add (of_int 1) gapPercent) as [sd|sd| |sd md ed];
    try discriminate Hd; destruct s, sd; vm_compute; repeat split.
Qed.

Lemma Calculate_zero_price_witness :
  Spec.shareCount policy (lit 15 100) (S754_zero false) = None
  /\ Shares (Calculate (lit 15 100) (S754_zero false)) = int_indefinite
  /\ is_finite (EntryPrice (Calculate (lit 15 100) (S754_zero false))) = true
  /\ Abs (EntryPrice (Calculate (lit 15 100) (S754_zero false)))
     = S754_zero false
  /\ Abs (TakeProfitPrice (Calculate (lit 15 100) (S754_zero false)))
     = S754_zero false
  /\ Abs (StopLossPrice (Calculate (lit 15 100) (S754_zero false)))
     = S754_zero false.
Proof.
  apply (Calculate_zero_price (lit 15 100) false).
  vm_compute. reflexivity.
Defined.

(** ** Candidate filter: composition *)

(** X5.  Filtering twice is filtering once, filtering a concatenation is
    concatenating the filtered parts, and the filter never adds a row. *)
Theorem filter_stocks_idempotent (stocks stocks' : list Stock) :
  filter_stocks (filter_stocks stocks) = filter_stocks stocks
  /\ filter_stocks (stocks ++ stocks')
     = filter_stocks stocks ++ filter_stocks stocks'
  /\ (List.length (filter_stocks stocks) <= List.length stocks)%nat.
Proof.
  unfold filter_stocks. split; [|split].
  - induction stocks as [|s rest IH]; [reflexivity|].
    cbn [DeleteFunc]. destruct (unworthy s) eqn:Hs; [exact IH|].
    cbn [DeleteFunc]. rewrite Hs, IH. reflexivity.
  - induction stocks as [|s rest IH]; [reflexivity|].
    cbn [DeleteFunc app]. destruct (unworthy s); rewrite IH; reflexivity.
  - induction stocks as [|s rest IH]; [apply le_n|].
    cbn [DeleteFunc]. destruct (unworthy s); cbn [List.length]; lia.
Qed.

(** X6.  The filter looks at the magnitude of the gap alone: a gap and its
    opposite are kept or dropped alike, whatever the ticker and the price. *)
Theorem unworthy_ignores_direction
    (ticker ticker' : string) (gap o o' : float64) :
  unworthy {| Ticker := ticker'; Gap := SFopp gap; OpeningPrice := o' |}
  = unworthy {| Ticker := ticker; Gap := gap; OpeningPrice := o |}.
Proof.
  unfold unworthy. cbn [Gap]. f_equal. destruct gap; reflexivity.
Qed.

(** ** Loader: what the stock list holds *)

Section LoaderContents.
Variable ParseFloat : string -> option float64.



Lemma parsed_app (rows rows' : list (list string)) :
  parsed ParseFloat (rows ++ rows')
  = parsed ParseFloat rows ++ parsed ParseFloat rows'.
Proof.
  induction rows as [|row rest IH]; [reflexivity|].
  cbn [parsed app]. destruct (parse_row ParseFloat row); rewrite IH;
    reflexivity.
Qed.


(** X8.  Rows are loaded one by one, whatever the header: the file with the data
    rows [data ++ data'] panics when one of the two parts does, and
    otherwise yields the stocks of the first part followed by those of the
    second. *)
Theorem Load_concat (header header' : list string)
    (data data' : list (list string)) :
  Load ParseFloat (Records (header :: data ++ data')) =
  match Load ParseFloat (Records (header :: data)),
        Load ParseFloat (Records (header' :: data')) with
  | Returns (_, (stocks, _)), Returns (_, (stocks', _)) =>
      Returns ([], (stocks ++ stocks', None))
  | _, _ => Panics
  end.
Proof.
  rewrite !Load_eq. rewrite existsb_app, parsed_app.
  destruct (existsb _ data); [reflexivity|].
  destruct (existsb _ data'); reflexivity.
Qed.
End LoaderContents.


(** ** The goroutine *)

(** Whatever the lookup does, the goroutine sends the stock's ticker with
    the position [Calculate] gives it, and the count it prints last is the
    number of articles it sends; the error line is printed exactly when the
    lookup returned an error. *)
Lemma worker_report_matches (t : Task) :
  Selection_Ticker (sent t) = Ticker (fst t)
  /\ Selection_Position (sent t)
     = Calculate (Gap (fst t)) (OpeningPrice (fst t))
  /\ Articles (sent t) = fst (FetchNews (snd t))
  /\ printed t =
     match snd (FetchNews (snd t)) with
     | Some e => [ErrorLoadingNews (Ticker (fst t)) e]
     | None => []
     end
     ++ [FoundArticles (List.length (Articles (sent t))) (Ticker (fst t))].
Proof.
  unfold sent, printed, worker.
  destruct (FetchNews (snd t)) as [articles err]. repeat split.
Qed.

(** ** News adapter: the outcomes *)

(** X9.  [FetchNews] returns a nil error exactly on a response whose status
    is from 200 to 299, whatever its body; and when it returns an error it
    returns no article. *)
Theorem FetchNews_succeeds_iff (h : HttpOutcome) :
  (snd (FetchNews h) = None <->
   exists code res decodeErr,
     h = Response code res decodeErr /\ 200 <= code <= 299)
  /\ (snd (FetchNews h) <> None -> fst (FetchNews h) = []).
Proof.
  destruct h as [e|e|code res decodeErr]; cbn [FetchNews fst snd].
  - split; [|reflexivity]. split; [discriminate|].
    intros [c [r [d [H _]]]]. discriminate H.
  - split; [|reflexivity]. split; [discriminate|].
    intros [c [r [d [H _]]]]. discriminate H.
  - rewrite Z.gtb_ltb.
    destruct (Z.ltb_spec code 200) as [Ha|Ha];
      destruct (Z.ltb_spec 299 code) as [Hb|Hb]; cbn [orb fst snd];
      (split; [split|]); try discriminate; try reflexivity;
      try (intros [c [r [d [H Hc]]]]; injection H as -> _ _; lia);
      try (intros H; exfalso; apply H; reflexivity).
    intros _. exists code, res, decodeErr. split; [reflexivity | lia].
Qed.

(** ** Collection: safety, termination, final state *)

Section CollectionFacts.
Local Open Scope nat_scope.

Variable k : SinkOutcome.

Lemma exited_no_step (n0 : nat) (st st' : State) (c : Z) :
  pc st = Exited c -> ~ step n0 k st st'.
Proof.
  intros Hpc Hstep.
  destruct Hstep as
    [st before t after Hal Hrun Hcl Hcap
    |st before t after Hal Hrun Hcl
    |st sel rest Hpc' Hbuf Hn
    |st sel rest Hpc' Hbuf Hn Hcl
    |st sel rest Hpc' Hbuf Hn Hcl
    |st Hpc' Hbuf Hcl
    |st Hpc'];
    try (unfold alive in Hal; rewrite Hpc in Hal; contradiction);
    congruence.
Qed.

Lemma run_last (n0 m : nat) (a c : State) :
  run n0 k (S m) a c -> exists b, run n0 k m a b /\ step n0 k b c.
Proof.
  revert a. induction m as [|m IH]; intros a Hrun;
    inversion Hrun as [|m' st st1 st2 Hstep Hrest]; subst.
  - inversion Hrest; subst. exists a. split; [apply run_done | exact Hstep].
  - destruct (IH st1 Hrest) as [b [Hb Hlast]].
    exists b. split; [|exact Hlast].
    apply (run_step n0 k m a st1 b Hstep Hb).
Qed.

Variable tasks : list Task.
Local Abbreviation n := (List.length tasks).

(** Under the invariant a step uses up exactly one unit of [weight]. *)
Lemma step_weight_exact (st st' : State) :
  Inv tasks k st -> step n k st st' -> weight st = S (weight st').
Proof.
  intros HI Hstep. pose proof (Inv_step k tasks st st' HI Hstep) as HI'.
  unfold weight.
  destruct Hstep as
    [st before t after Hal Hrun Hcl Hcap
    |st before t after Hal Hrun Hcl
    |st sel rest Hpc Hbuf Hn
    |st sel rest Hpc Hbuf Hn Hcl
    |st sel rest Hpc Hbuf Hn Hcl
    |st Hpc Hbuf Hcl
    |st Hpc];
    try (pose proof (inv_status _ _ _ HI' 2%Z eq_refl) as Hc;
         discriminate Hc);
    cbn [pc running buffer];
    try rewrite Hrun; try rewrite Hbuf; try rewrite Hpc;
    rewrite ?length_app; cbn [List.length]; lia.
Qed.

Lemma run_weight_exact (m : nat) (st st' : State) :
  Inv tasks k st -> run n k m st st' -> m + weight st' = weight st.
Proof.
  intros HI Hrun. induction Hrun as [st|m st st1 st2 Hstep _ IH]; [lia|].
  rewrite (step_weight_exact st st1 HI Hstep).
  rewrite <- (IH (Inv_step k tasks st st1 HI Hstep)). lia.
Qed.

Lemma Inv_exited_weight (st : State) (c : Z) :
  Inv tasks k st -> pc st = Exited c -> weight st = 0.
Proof.
  intros HI Hpc. destruct (inv_past _ _ _ HI) as [Hb Hr];
    [rewrite Hpc; discriminate|].
  unfold weight. rewrite Hb, Hr, Hpc. reflexivity.
Qed.

(** From a state of the collection, [weight] more steps end the run. *)
Lemma Inv_finish (w : nat) :
  forall st, weight st = w -> Inv tasks k st ->
  exists st', run n k w st st' /\ pc st' = Exited 0%Z.
Proof.
  induction w as [|w IH]; intros st Hw HI.
  - destruct (Inv_progress k tasks st HI) as [Hpc|[st1 Hstep]].
    + exists st. split; [apply run_done | exact Hpc].
    + apply (step_weight_exact st st1 HI) in Hstep. lia.
  - destruct (Inv_progress k tasks st HI) as [Hpc|[st1 Hstep]].
    + rewrite (Inv_exited_weight st 0%Z HI Hpc) in Hw. discriminate Hw.
    + pose proof (step_weight_exact st st1 HI Hstep) as Hw1.
      destruct (IH st1) as [st' [Hrun Hpc]];
        [lia | apply (Inv_step k tasks st st1 HI Hstep)|].
      exists st'. split; [|exact Hpc].
      apply (run_step n k w st st1 st' Hstep Hrun).
Qed.

(** A run that has ended took the sink's step last. *)
Lemma exited_after_sink (out : list Output) (m : nat) (st : State) (c : Z) :
  run n k m (init out tasks) st -> pc st = Exited c ->
  tasks <> [] /\
  exists m' b,
    m = S m' /\ run n k m' (init out tasks) b /\ pc b = Delivering
    /\ running b = [] /\ buffer b = []
    /\ c = 0%Z
    /\ selections st = selections b
    /\ output st = output b ++ [final_line k (selections b)]
    /\ file st = fst (Deliver k (selections b)).
Proof.
  intros Hrun Hpc.
  destruct tasks as [|t0 rest] eqn:Htasks.
  { apply empty_batch_run in Hrun. destruct Hrun as [_ ->].
    discriminate Hpc. }
  rewrite <- Htasks in *.
  assert (Hne : tasks <> []) by (rewrite Htasks; discriminate).
  split; [rewrite Htasks; discriminate|].
  destruct m as [|m'].
  { inversion Hrun; subst. discriminate Hpc. }
  destruct (run_last n m' _ _ Hrun) as [b [Hb Hstep]].
  pose proof (Inv_run k tasks m' _ _ (Inv_init k tasks out Hne) Hb) as HIb.
  pose proof (Inv_step k tasks b st HIb Hstep) as HIst.
  pose proof (inv_status _ _ _ HIst c Hpc) as Hc.
  exists m', b. split; [reflexivity|]. split; [exact Hb|].
  inversion Hstep as
    [st1 before t after Hal Hrun' Hcl Hcap
    |st1 before t after Hal Hrun' Hcl
    |st1 sel rest' Hpc' Hbuf Hn
    |st1 sel rest' Hpc' Hbuf Hn Hcl
    |st1 sel rest' Hpc' Hbuf Hn Hcl
    |st1 Hpc' Hbuf Hcl
    |st1 Hpc']; subst st1 st; cbn [pc] in Hpc.
  - exfalso. unfold alive in Hal. rewrite Hpc in Hal. exact Hal.
  - exfalso. injection Hpc as Hc2. subst c. discriminate Hc.
  - discriminate Hpc.
  - discriminate Hpc.
  - exfalso. injection Hpc as Hc2. subst c. discriminate Hc.
  - discriminate Hpc.
  - destruct (inv_past _ _ _ HIb) as [Hbuf Hrun'];
      [rewrite Hpc'; discriminate|].
    cbn [selections output file]. unfold final_line.
    repeat split; try assumption; try reflexivity.
    destruct (snd (Deliver k (selections b))); reflexivity.
Qed.

(** X10.  No goroutine ever blocks or panics on its send, and [main] never
    panics: in every state of every run the channel holds at most
    [len(stocks)] selections counting those still to be sent, an exit
    status is 0, and while a goroutine is still running [main] is in the
    loop, the channel is open and has room. *)
Theorem goroutines_never_block (out : list Output) (m : nat) (st : State) :
  run n k m (init out tasks) st ->
  (forall c, pc st = Exited c -> c = 0%Z)
  /\ List.length (buffer st) + List.length (running st) <= n
  /\ (running st <> [] ->
      pc st = Collecting /\ closed st = false
      /\ List.length (buffer st) < n).
Proof.
  intros Hrun. destruct tasks as [|t0 rest] eqn:Htasks.
  { apply empty_batch_run in Hrun. destruct Hrun as [_ ->].
    cbn [init pc running buffer closed List.length].
    split; [discriminate|]. split; [apply le_n|].
    intros H. contradiction. }
  rewrite <- Htasks in *.
  assert (Hne : tasks <> []) by (rewrite Htasks; discriminate).
  pose proof (Inv_run k tasks m _ _ (Inv_init k tasks out Hne) Hrun) as HI.
  pose proof (Inv_lengths k tasks st HI) as Hlen.
  split; [apply (inv_status _ _ _ HI)|]. split; [lia|].
  intros Hr.
  assert (Hpos : 0 < List.length (running st)).
  { destruct (running st); [contradiction | cbn [List.length]; lia]. }
  split; [|split].
  - destruct (pc st) eqn:Hpc; [reflexivity| |];
      destruct (inv_past _ _ _ HI) as [_ Hnil];
      try (rewrite Hpc; discriminate); contradiction.
  - rewrite (inv_closed _ _ _ HI). apply Nat.eqb_neq. lia.
  - lia.
Qed.

(** X11.  Every run of the collection over a non-empty batch is part of a run of
    exactly [2 * len(stocks) + 2] steps that ends with [main] returned: from
    any state reached, [weight] more steps lead to exit status 0, and a run
    that has ended took [2 * len(stocks) + 2] steps. *)
Theorem collection_terminates (out : list Output) (m : nat) (st : State) :
  tasks <> [] ->
  run n k m (init out tasks) st ->
  m + weight st = 2 * n + 2
  /\ (exists st', run n k (weight st) st st' /\ pc st' = Exited 0%Z)
  /\ (forall c, pc st = Exited c -> m = 2 * n + 2).
Proof.
  intros Hne Hrun.
  pose proof (Inv_init k tasks out Hne) as HI0.
  pose proof (Inv_run k tasks m _ _ HI0 Hrun) as HI.
  pose proof (run_weight_exact m _ _ HI0 Hrun) as Hw.
  unfold weight at 2 in Hw. cbn [init pc running buffer List.length] in Hw.
  split; [lia|]. split.
  - apply (Inv_finish (weight st) st eq_refl HI).
  - intros c Hpc. rewrite (Inv_exited_weight st c HI Hpc) in Hw. lia.
Qed.

(** X12.  When [main] has returned, the exit status is 0, nothing is pending, the
    batch holds exactly one selection per goroutine, the output file is what
    the sink made of that batch, and the last line printed is the sink's
    verdict on it. *)
Theorem exit_state (out : list Output) (m : nat) (st : State) (c : Z) :
  run n k m (init out tasks) st ->
  pc st = Exited c ->
  c = 0%Z
  /\ running st = [] /\ buffer st = []
  /\ Permutation (selections st) (map sent tasks)
  /\ file st = fst (Deliver k (selections st))
  /\ exists pre, output st = pre ++ [final_line k (selections st)].
Proof.
  intros Hrun Hpc.
  destruct (exited_after_sink out m st c Hrun Hpc)
    as [Hne [m' [b [_ [_ [_ [_ [_ [Hc [Hsel [Hout Hfile]]]]]]]]]]].
  pose proof (Inv_run k tasks m _ _ (Inv_init k tasks out Hne) Hrun) as HI.
  destruct (inv_past _ _ _ HI) as [Hb Hr]; [rewrite Hpc; discriminate|].
  split; [exact Hc|]. split; [exact Hr|]. split; [exact Hb|]. split.
  - apply (Inv_complete k tasks st HI). rewrite Hpc. discriminate.
  - rewrite Hsel. split; [exact Hfile|]. exists (output b). exact Hout.
Qed.

Lemma output_accounted_step (out : list Output) (st st' : State) :
  output_accounted out tasks st -> step n k st st' ->
  output_accounted out tasks st'.
Proof.
  unfold output_accounted. intros Hacc Hstep.
  destruct Hstep as
    [st before t after Hal Hrun Hcl Hcap
    |st before t after Hal Hrun Hcl
    |st sel rest Hpc Hbuf Hn
    |st sel rest Hpc Hbuf Hn Hcl
    |st sel rest Hpc Hbuf Hn Hcl
    |st Hpc Hbuf Hcl
    |st Hpc]; unfold alive; cbn [pc running output].
  - intros Hal'. rewrite <- (Hacc Hal). rewrite Hrun.
    rewrite !map_app, !concat_app. cbn [map List.concat].
    rewrite <- app_assoc. apply Permutation_app_head.
    apply Permutation_app_swap_app.
  - intros Hfalse. contradiction.
  - intros _. apply Hacc. unfold alive. rewrite Hpc. exact I.
  - intros _. apply Hacc. unfold alive. rewrite Hpc. exact I.
  - intros Hfalse. contradiction.
  - intros _. apply Hacc. unfold alive. rewrite Hpc. exact I.
  - intros Hfalse. contradiction.
Qed.

Lemma output_accounted_run (out : list Output) (m : nat) (st : State) :
  run n k m (init out tasks) st -> output_accounted out tasks st.
Proof.
  assert (Hgen : forall a b, run n k m a b ->
            output_accounted out tasks a -> output_accounted out tasks b).
  { intros a b Hrun. induction Hrun as [a|m' a a1 b Hstep _ IH];
      intros Ha; [exact Ha|].
    apply IH. apply (output_accounted_step out a a1 Ha Hstep). }
  intros Hrun. apply (Hgen _ _ Hrun).
  intros _. cbn [init output running]. apply Permutation_refl.
Qed.

(** X13.  When [main] has returned, what has been printed is, up to the order,
    what was printed before the fan-out, the lines of every goroutine once
    each, and the sink's verdict. *)
Theorem output_accounting (out : list Output) (m : nat) (st : State) (c : Z) :
  run n k m (init out tasks) st ->
  pc st = Exited c ->
  Permutation (output st)
    (out ++ List.concat (map printed tasks)
         ++ [final_line k (selections st)]).
Proof.
  intros Hrun Hpc.
  destruct (exited_after_sink out m st c Hrun Hpc)
    as [_ [m' [b [_ [Hb [Hpcb [Hr [_ [_ [Hsel [Hout _]]]]]]]]]]].
  pose proof (output_accounted_run out m' b Hb) as Hacc.
  unfold output_accounted in Hacc. rewrite Hr in Hacc.
  cbn [map List.concat] in Hacc. rewrite app_nil_r in Hacc.
  rewrite Hout, Hsel, app_assoc. apply Permutation_app_tail.
  apply Hacc. unfold alive. rewrite Hpcb. exact I.
Qed.
End CollectionFacts.

Lemma goroutines_never_block_witness :
  (forall c, pc sample_delivering = Exited c -> c = 0)
  /\ (List.length (buffer sample_delivering)
      + List.length (running sample_delivering) <= 1)%nat
  /\ (running sample_delivering <> [] ->
      pc sample_delivering = Collecting /\ closed sample_delivering = false
      /\ (List.length (buffer sample_delivering) < 1)%nat).
Proof.
  exact (goroutines_never_block sample_sink [sample_task] [] 3
           sample_delivering sample_run_to_sink).
Defined.

Lemma collection_terminates_witness :
  (3 + weight sample_delivering = 2 * 1 + 2)%nat
  /\ (exists st',
        run 1 sample_sink (weight sample_delivering) sample_delivering st'
        /\ pc st' = Exited 0)
  /\ (forall c, pc sample_delivering = Exited c -> 3%nat = (2 * 1 + 2)%nat).
Proof.
  apply (collection_terminates sample_sink [sample_task] [] 3
           sample_delivering).
  - discriminate.
  - exact sample_run_to_sink.
Defined.

Lemma exit_state_witness :
  0 = 0
  /\ running sample_exited = [] /\ buffer sample_exited = []
  /\ Permutation (selections sample_exited) (map sent [sample_task])
  /\ file sample_exited
     = fst (Deliver sample_sink (selections sample_exited))
  /\ exists pre,
       output sample_exited
       = pre ++ [final_line sample_sink (selections sample_exited)].
Proof.
  apply (exit_state sample_sink [sample_task] [] 4 sample_exited 0).
  - exact sample_run_to_exit.
  - reflexivity.
Defined.

Lemma output_accounting_witness :
  Permutation (output sample_exited)
    ([] ++ List.concat (map printed [sample_task])
        ++ [final_line sample_sink (selections sample_exited)]).
Proof.
  apply (output_accounting sample_sink [sample_task] [] 4 sample_exited 0).
  - exact sample_run_to_exit.
  - reflexivity.
Defined.

(** ** What the printed lines say *)

Lemma In_printed (t : Task) (x : Output) :
  In x (printed t) <->
  (exists e, snd (FetchNews (snd t)) = Some e
             /\ x = ErrorLoadingNews (Ticker (fst t)) e)
  \/ x = FoundArticles (List.length (fst (FetchNews (snd t))))
                       (Ticker (fst t)).
Proof.
  unfold printed, worker.
  destruct (FetchNews (snd t)) as [articles [e|]]; cbn [fst snd app In].
  - split.
    + intros [<-|[<-|[]]]; [left; exists e; split; reflexivity | right;
        reflexivity].
    + intros [[e' [He ->]]| ->]; [left | right; left; reflexivity].
      injection He as <-. reflexivity.
  - split.
    + intros [<-|[]]. right. reflexivity.
    + intros [[e' [He _]]| ->]; [discriminate He | left; reflexivity].
Qed.

Section PrintedLines.
Variable k : SinkOutcome.
Variable tasks : list Task.

(** Membership in what has been printed when [main] has returned. *)
Lemma In_output_exited
    (out : list Output) (m : nat) (st : State) (c : Z) (x : Output) :
  run (List.length tasks) k m (init out tasks) st ->
  pc st = Exited c ->
  (In x (output st) <->
   In x out \/ (exists t, In t tasks /\ In x (printed t))
   \/ x = final_line k (selections st)).
Proof.
  intros Hrun Hpc.
  destruct (exited_after_sink k tasks out m st c Hrun Hpc)
    as [_ [m' [b [_ [Hb [Hpcb [Hr [_ [_ [Hsel [Hout _]]]]]]]]]]].
  pose proof (output_accounted_run k tasks out m' b Hb) as Hacc.
  unfold output_accounted in Hacc. rewrite Hr in Hacc.
  cbn [map List.concat] in Hacc. rewrite app_nil_r in Hacc.
  assert (Hal : alive b) by (unfold alive; rewrite Hpcb; exact I).
  specialize (Hacc Hal).
  rewrite Hout, Hsel. rewrite in_app_iff. cbn [In].
  assert (Hmid : In x (output b) <->
                 In x out \/ exists t, In t tasks /\ In x (printed t)).
  { split.
    - intros Hin. apply (Permutation_in x Hacc) in Hin.
      apply in_app_iff in Hin. destruct Hin as [Hin|Hin]; [left; exact Hin|].
      right. apply in_concat in Hin. destruct Hin as [l [Hl Hx]].
      apply in_map_iff in Hl. destruct Hl as [t [<- Ht]].
      exists t. split; assumption.
    - intros Hin. apply (Permutation_in x (Permutation_sym Hacc)).
      apply in_app_iff. destruct Hin as [Hin|[t [Ht Hx]]];
        [left; exact Hin|].
      right. apply in_concat. exists (printed t).
      split; [apply in_map; exact Ht | exact Hx]. }
  rewrite Hmid. split.
  - intros [[H|H]|[H|[]]]; [left; exact H | right; left; exact H|].
    right. right. symmetry. exact H.
  - intros [H|[H|H]]; [left; left; exact H | left; right; exact H|].
    right. left. symmetry. exact H.
Qed.

(** X14.  The success line is truthful: when [main] has returned, "Finished
    writing output" has been printed exactly when the output file holds the
    batch. *)
Theorem success_line_is_truthful
    (out : list Output) (m : nat) (st : State) (c : Z) :
  run (List.length tasks) k m (init out tasks) st ->
  pc st = Exited c ->
  ~ In (FinishedWriting outputPath) out ->
  (In (FinishedWriting outputPath) (output st)
   <-> file st = Holds (selections st)).
Proof.
  intros Hrun Hpc Hout.
  rewrite (In_output_exited out m st c _ Hrun Hpc).
  destruct (exited_after_sink k tasks out m st c Hrun Hpc)
    as [_ [m' [b [_ [_ [_ [_ [_ [_ [Hsel [_ Hfile]]]]]]]]]]].
  rewrite Hfile, Hsel. unfold final_line.
  split.
  - intros [H|[[t [_ H]]|H]].
    + contradiction.
    + apply In_printed in H. destruct H as [[e [_ H]]|H]; discriminate H.
    + destruct k; cbn [Deliver fst snd] in *; try discriminate H.
      reflexivity.
  - intros H. right. right.
    destruct k; cbn [Deliver fst snd] in *; try discriminate H.
    reflexivity.
Qed.

(** X15.  The error lines are the failed lookups: when [main] has returned, the
    line reporting the error [e] for a ticker has been printed exactly when
    a goroutine started on a stock with that ticker had its lookup end in
    [e]. *)
Theorem error_lines_are_lookup_failures
    (out : list Output) (m : nat) (st : State) (c : Z)
    (ticker : string) (e : error) :
  run (List.length tasks) k m (init out tasks) st ->
  pc st = Exited c ->
  ~ In (ErrorLoadingNews ticker e) out ->
  (In (ErrorLoadingNews ticker e) (output st)
   <-> exists t, In t tasks /\ Ticker (fst t) = ticker
                 /\ snd (FetchNews (snd t)) = Some e).
Proof.
  intros Hrun Hpc Hout.
  rewrite (In_output_exited out m st c _ Hrun Hpc).
  split.
  - intros [H|[[t [Ht H]]|H]].
    + contradiction.
    + apply In_printed in H. destruct H as [[e' [He H]]|H];
        [|discriminate H].
      injection H as -> ->. exists t. repeat split; assumption.
    + unfold final_line in H.
      destruct (snd (Deliver k (selections st))); discriminate H.
  - intros [t [Ht [<- He]]]. right. left. exists t. split; [exact Ht|].
    apply In_printed. left. exists e. split; [exact He | reflexivity].
Qed.
End PrintedLines.

Lemma success_line_is_truthful_witness :
  In (FinishedWriting outputPath) (output sample_exited)
  <-> file sample_exited = Holds (selections sample_exited).
Proof.
  apply (success_line_is_truthful sample_sink [sample_task] [] 4
           sample_exited 0).
  - exact sample_run_to_exit.
  - reflexivity.
  - intros [].
Defined.

Lemma error_lines_are_lookup_failures_witness :
  In (ErrorLoadingNews "XYZ" (External "timeout")) (output sample_exited)
  <-> exists t, In t [sample_task] /\ Ticker (fst t) = "XYZ"%string
                /\ snd (FetchNews (snd t)) = Some (External "timeout").
Proof.
  apply (error_lines_are_lookup_failures sample_sink [sample_task] [] 4
           sample_exited 0 "XYZ" (External "timeout")).
  - exact sample_run_to_exit.
  - reflexivity.
  - intros [].
Defined.

(** ** The whole of [main] *)

Lemma map_fst_combine_same {A B : Type} (l : list A) (l' : list B) :
  List.length l = List.length l' -> map fst (combine l l') = l.
Proof.
  revert l'. induction l as [|a l IH]; intros [|b l'] Hlen;
    try reflexivity; try discriminate Hlen.
  cbn [combine map fst]. f_equal. apply IH.
  injection Hlen as Hlen. exact Hlen.
Qed.

(** Every goroutine is started on a stock of its own, in the order of the
    list. *)
Lemma map_fst_dispatch (news : nat -> HttpOutcome) (stocks : list Stock) :
  map fst (dispatch news stocks) = stocks.
Proof.
  unfold dispatch. apply map_fst_combine_same.
  rewrite length_map, length_seq. reflexivity.
Qed.

Lemma length_dispatch (news : nat -> HttpOutcome) (stocks : list Stock) :
  List.length (dispatch news stocks) = List.length stocks.
Proof.
  rewrite <- (map_fst_dispatch news stocks) at 2.
  rewrite length_map. reflexivity.
Qed.

Lemma plan_of_sent (t : Task) :
  plan_of_selection (sent t) = plan_of_stock (fst t).
Proof.
  unfold plan_of_selection, plan_of_stock, sent, worker.
  destruct (FetchNews (snd t)). reflexivity.
Qed.

Lemma halted_reaches
    (n : nat) (k : SinkOutcome) (c : Z) (out : list Output) (st : State) :
  (exists m, run n k m (halted c out) st) <-> st = halted c out.
Proof.
  split.
  - intros [m Hrun].
    inversion Hrun as [|m' st0 st1 st2 Hstep _]; subst; [reflexivity|].
    exfalso. apply (exited_no_step k n (halted c out) st1 c eq_refl Hstep).
  - intros ->. exists O. apply run_done.
Qed.

Section MainFacts.
Variable ParseFloat : string -> option float64.

(** X16.  The ways [main] ends before the fan-out.  When the input cannot be
    opened or read, the error is printed twice (by [Load], then by [main]),
    no goroutine is started, no file is written and the exit status is 0.
    When [Load] panics, nothing is printed or written and the status is
    2. *)
Theorem main_early_exits (w : World) :
  (forall e, csv w = OpenFails e \/ csv w = ReadAllFails e ->
     forall st, main_reaches ParseFloat w st <->
                st = halted 0 [Println e; Println e])
  /\ (Load ParseFloat (csv w) = Panics ->
      forall st, main_reaches ParseFloat w st <-> st = halted 2 []).
Proof.
  split.
  - intros e He st. unfold main_reaches, main_start.
    destruct He as [He|He]; rewrite He; cbn [Load fst snd app];
      apply halted_reaches.
  - intros Hp st. unfold main_reaches, main_start. rewrite Hp.
    cbn [fst snd]. apply halted_reaches.
Qed.

(** X17.  From the file to the batch.  When [Load] returns the stocks and the
    filter leaves at least one, [main] can run to its end, and whenever it
    has ended the exit status is 0, the batch pairs every filtered stock,
    and no other, with the position [Calculate] gives it, and the output
    file is what the sink made of the batch. *)
Theorem main_end_to_end
    (w : World) (out : list Output) (stocks : list Stock) :
  Load ParseFloat (csv w) = Returns (out, (stocks, None)) ->
  filter_stocks stocks <> [] ->
  (exists st, main_reaches ParseFloat w st /\ pc st = Exited 0)
  /\ forall st c,
       main_reaches ParseFloat w st -> pc st = Exited c ->
       c = 0
       /\ Permutation (map plan_of_selection (selections st))
                      (map plan_of_stock (filter_stocks stocks))
       /\ file st = fst (Deliver (sink w) (selections st)).
Proof.
  intros Hload Hne. unfold main_reaches, main_start. rewrite Hload.
  cbn [fst snd].
  set (tasks := dispatch (news w) (filter_stocks stocks)).
  rewrite <- (length_dispatch (news w) (filter_stocks stocks)).
  fold tasks.
  assert (Htasks : tasks <> []).
  { intros Hnil. apply Hne.
    rewrite <- (map_fst_dispatch (news w) (filter_stocks stocks)).
    fold tasks. rewrite Hnil. reflexivity. }
  pose proof (Inv_init (sink w) tasks out Htasks) as HI0.
  split.
  - destruct (Inv_finish (sink w) tasks _ _ eq_refl HI0) as [st [Hrun Hpc]].
    exists st. split; [|exact Hpc].
    exists (weight (init out tasks)). exact Hrun.
  - intros st c [m Hrun] Hpc.
    pose proof (Inv_run (sink w) tasks m _ _ HI0 Hrun) as HI.
    destruct (exited_after_sink (sink w) tasks out m st c Hrun Hpc)
      as [_ [m' [b [_ [_ [_ [_ [_ [Hc [Hsel [_ Hfile]]]]]]]]]]].
    split; [exact Hc|]. split.
    + destruct (Inv_complete (sink w) tasks st HI) as [Hperm _];
        [rewrite Hpc; discriminate|].
      rewrite <- (map_fst_dispatch (news w) (filter_stocks stocks)).
      fold tasks. rewrite map_map.
      rewrite (map_ext _ _ (fun t => eq_sym (plan_of_sent t))).
      rewrite <- (map_map sent plan_of_selection).
      apply Permutation_map. exact Hperm.
    + rewrite Hsel. exact Hfile.
Qed.
End MainFacts.

Lemma main_end_to_end_witness :
  (exists st, main_reaches sample_ParseFloat sample_world st
              /\ pc st = Exited 0)
  /\ forall st c,
       main_reaches sample_ParseFloat sample_world st -> pc st = Exited c ->
       c = 0
       /\ Permutation (map plan_of_selection (selections st))
                      (map plan_of_stock (filter_stocks [sample_stock]))
       /\ file st = fst (Deliver (sink sample_world) (selections st)).
Proof.
  apply (main_end_to_end sample_ParseFloat sample_world [] [sample_stock]).
  - vm_compute. reflexivity.
  - vm_compute. discriminate.
Defined.
